(** * Reading-progress store and statistics engine of kompanion_py

    A shallow embedding of
      - [kompanion_py/models/progress.py], [kompanion_py/models/book.py],
      - [kompanion_py/domains/sync/repository.py] (InMemoryProgressRepository),
      - [kompanion_py/domains/sync/service.py] (ProgressService),
      - [kompanion_py/domains/stats/repository.py] (InMemoryStatsRepository),
      - [kompanion_py/domains/stats/service.py] (StatsService),
      - [kompanion_py/domains/library/repository.py] (InMemoryBookRepository),
      - [kompanion_py/domains/library/service.py] (the listing of
        LibraryService),
    together with the properties of the written specification that concern
    them.

    Conventions of the embedding.
      - A [UUID] is its 128-bit integer value; Python compares and orders
        UUIDs by that value.
      - A naive [datetime] is the number of microseconds since
        1970-01-01T00:00:00 (datetime has microsecond resolution and naive
        datetimes are ordered and subtracted as such counts); a [timedelta]
        is a number of microseconds.
      - A [float] percentage is the rational number it denotes.  Only
        comparisons of percentages are used by the properties below, and on
        floats other than NaN these agree with the comparisons of the
        denoted rationals.
      - [copy(deep=True)] of an immutable record is the record itself.
      - [list.sort] and [sorted] are stable; a stable sort of a list under a
        total preorder is unique, so the insertion sort below computes the
        list Python computes. *)

From Stdlib Require Import ZArith QArith Lia Ascii String DecimalString OrderedTypeEx.
From stdpp Require Import base list gmap strings sorting.

Local Open Scope Z_scope.

(** ** Data model *)

Definition UUID := N.
Definition datetime := Z.
Definition timedelta := Z.

Definition seconds (n : Z) : timedelta := n * 1000000.

(** [models/progress.py], class Progress. *)
Record Progress := mkProgress {
  document_id : UUID;
  user_id : option UUID;
  percentage : Q;
  progress_detail : string;
  device_name : string;
  device_id : option UUID;
  timestamp : datetime
}.

(** [models/book.py], class Book (stored fields). *)
Record Book := mkBook {
  book_id : UUID;
  title : string;
  author : option string;
  created_at : datetime;
  updated_at : datetime;
  book_document_id : string;
  file_path : string;
  format : option string;
  cover_path : option string
}.

(** ** Stable sorting, as [list.sort(key=..., reverse=...)] *)

Section stable_sort.
Context {A : Type} (leb : A -> A -> bool).

Fixpoint insert_stable (x : A) (l : list A) : list A :=
  match l with
  | [] => [x]
  | y :: l' => if leb x y then x :: y :: l' else y :: insert_stable x l'
  end.

Fixpoint stable_sort (l : list A) : list A :=
  match l with
  | [] => []
  | x :: l' => insert_stable x (stable_sort l')
  end.
End stable_sort.

(** [sort(key=lambda p: p.timestamp)] *)
Definition ts_asc (a b : Progress) : bool := timestamp a <=? timestamp b.
(** [sort(key=lambda p: p.timestamp, reverse=True)] *)
Definition ts_desc (a b : Progress) : bool := timestamp b <=? timestamp a.

(** Order of the tuples [(p.document_id, p.timestamp)]. *)
Definition doc_ts_le (a b : Progress) : bool :=
  (document_id a <? document_id b)%N
  || ((document_id a =? document_id b)%N && (timestamp a <=? timestamp b)).
(** [sort(key=lambda p: (p.document_id, p.timestamp), reverse=True)] *)
Definition doc_ts_desc (a b : Progress) : bool := doc_ts_le b a.

(** Strict comparison of percentages. *)
Definition Qlt_bool (a b : Q) : bool := negb (Qle_bool b a).

(** [sorted(..., key=lambda item: item[1].percentage, reverse=True)] *)
Definition pct_desc (a b : UUID * Progress) : bool :=
  Qle_bool (percentage (snd b)) (percentage (snd a)).

(** ** InMemoryProgressRepository *)

(** [self._progress_entries] *)
Abbreviation Store := (list Progress).

Definition same_key (entry progress : Progress) : bool :=
  bool_decide (document_id entry = document_id progress)
  && bool_decide (device_id entry = device_id progress).

(** The [for entry in self._progress_entries] loop of [save_progress],
    with its two variables [new_entries] and [updated]. *)
Fixpoint save_loop (progress : Progress) (entries : list Progress)
    (new_entries : list Progress) (updated : bool) : list Progress * bool :=
  match entries with
  | [] => (new_entries, updated)
  | entry :: rest =>
      if same_key entry progress then
        if timestamp progress >=? timestamp entry then
          if negb updated
          then save_loop progress rest (new_entries ++ [progress]) true
          else save_loop progress rest new_entries updated
        else save_loop progress rest (new_entries ++ [entry]) updated
      else save_loop progress rest (new_entries ++ [entry]) updated
  end.

(** [save_progress] returns the new store and the returned value. *)
Definition save_progress (st : Store) (progress : Progress) : Store * Progress :=
  let '(new_entries, updated) := save_loop progress st [] false in
  let new_entries := if negb updated then new_entries ++ [progress] else new_entries in
  (new_entries, progress).

Definition get_latest_progress (st : Store) (doc : UUID) (user : option UUID)
    : option Progress :=
  let user_doc_progress :=
    filter (fun p => document_id p = doc /\ user_id p = user) st in
  match user_doc_progress with
  | [] => None
  | _ => head (stable_sort ts_desc user_doc_progress)
  end.

Definition get_all_progress_for_user (st : Store) (user : option UUID)
    : list Progress :=
  stable_sort doc_ts_desc (filter (fun p => user_id p = user) st).

Definition get_progress_for_document_and_device (st : Store) (doc : UUID)
    (device : option UUID) : option Progress :=
  let doc_device_progress :=
    filter (fun p => document_id p = doc /\ device_id p = device) st in
  match doc_device_progress with
  | [] => None
  | _ => head (stable_sort ts_desc doc_device_progress)
  end.

(** Running a sequence of [save_progress] calls. *)
Definition save_all (st : Store) (ps : list Progress) : Store :=
  fold_left (fun s p => fst (save_progress s p)) ps st.

(** ** ProgressService *)

(** What [submit_progress] can raise. *)
Inductive SubmitError :=
  | ValidationError      (* pydantic's, from the Progress constructor *)
  | TimestampOutOfRange. (* from datetime.utcfromtimestamp *)

(** [datetime.utcfromtimestamp]: the instant of a Unix time in seconds;
    it raises outside the years 1..9999 that a datetime can hold. *)
Definition MIN_UNIX_TIME : Z := -62135596800.
Definition MAX_UNIX_TIME : Z := 253402300799.

Definition utcfromtimestamp (timestamp_int : Z) : SubmitError + datetime :=
  if (MIN_UNIX_TIME <=? timestamp_int) && (timestamp_int <=? MAX_UNIX_TIME)
  then inr (seconds timestamp_int)
  else inl TimestampOutOfRange.

(** The constructor [Progress(...)] called with values of the declared
    types: the model declares no constraint on any field, so every such call
    validates. *)
Definition Progress_validate (p : Progress) : SubmitError + Progress := inr p.

Definition submit_progress (st : Store) (user : option UUID) (doc : UUID)
    (pct : Q) (detail : option string) (dev_name : string)
    (device : option UUID) (timestamp_int : Z)
    : SubmitError + (Store * Progress) :=
  match utcfromtimestamp timestamp_int with
  | inl e => inl e
  | inr dt_timestamp =>
      match Progress_validate
              {| document_id := doc;
                 user_id := user;
                 percentage := pct;
                 progress_detail := default EmptyString detail;
                 device_name := dev_name;
                 device_id := device;
                 timestamp := dt_timestamp |} with
      | inl e => inl e
      | inr progress_data => inr (save_progress st progress_data)
      end
  end.

Definition get_document_progress (st : Store) (user : option UUID) (doc : UUID)
    : option Progress :=
  match get_latest_progress st doc user with
  | None => None
  | Some progress => Some progress
  end.

Definition get_device_specific_progress (st : Store) (doc : UUID)
    (device : option UUID) : option Progress :=
  get_progress_for_document_and_device st doc device.

(** ** Dictionaries in insertion order

    Python dictionaries iterate in insertion order, and assigning to a key
    that is present keeps the key's position. *)

Abbreviation dict K V := (list (K * V)).

Section dict.
Context {K : Type} `{EqDecision K} {V : Type}.

Fixpoint dict_get (d : dict K V) (k : K) : option V :=
  match d with
  | [] => None
  | (k', v) :: d' => if decide (k' = k) then Some v else dict_get d' k
  end.

Fixpoint dict_set (d : dict K V) (k : K) (v : V) : dict K V :=
  match d with
  | [] => [(k, v)]
  | (k', v') :: d' =>
      if decide (k' = k) then (k, v) :: d' else (k', v') :: dict_set d' k v
  end.

Definition dict_keys (d : dict K V) : list K := map fst d.
Definition dict_values (d : dict K V) : list V := map snd d.
End dict.

(** ** InMemoryStatsRepository *)

(** [domains/library/repository.py]: the interface the statistics use, and
    its in-memory implementation over [self._books]. *)
Class BookRepository (R : Type) := {
  get_book_by_id : R -> UUID -> option Book
}.

#[export] Instance InMemoryBookRepository : BookRepository (gmap UUID Book) := {
  get_book_by_id books id := books !! id
}.

(** The loop shared by the statistics:
    [if p.document_id not in latest or p.timestamp > latest[...].timestamp]. *)
Definition latest_step (latest : dict UUID Progress) (p : Progress)
    : dict UUID Progress :=
  match dict_get latest (document_id p) with
  | None => dict_set latest (document_id p) p
  | Some q =>
      if timestamp q <? timestamp p
      then dict_set latest (document_id p) p
      else latest
  end.

Definition latest_progress_per_book (all_progress : list Progress)
    : dict UUID Progress :=
  fold_left latest_step all_progress [].

Definition get_total_books_started (st : Store) (user : option UUID) : nat :=
  let all_progress := get_all_progress_for_user st user in
  match all_progress with
  | [] => 0%nat
  | _ =>
      let started_book_ids : gset UUID :=
        list_to_set
          (map document_id
               (filter (fun p => Is_true (Qlt_bool 0 (percentage p))) all_progress)) in
      size started_book_ids
  end.

Definition get_total_books_finished (st : Store) (user : option UUID)
    (finish_threshold : Q) : nat :=
  let all_progress := get_all_progress_for_user st user in
  match all_progress with
  | [] => 0%nat
  | _ =>
      let finished_book_ids : gset UUID :=
        list_to_set
          (map fst
               (filter (fun item => Is_true (Qle_bool finish_threshold
                                               (percentage (snd item))))
                       (latest_progress_per_book all_progress))) in
      size finished_book_ids
  end.

(** [progress_by_doc[p.document_id].append(p)] on a [defaultdict(list)]. *)
Definition group_step (by_doc : dict UUID (list Progress)) (p : Progress)
    : dict UUID (list Progress) :=
  dict_set by_doc (document_id p)
           (default [] (dict_get by_doc (document_id p)) ++ [p]).

Definition MAX_SESSION_GAP_SECONDS : Z := 2 * 60 * 60.

(** The body of the loop over [i]: what the pair [progresses[i]],
    [progresses[i+1]] adds to [total_time]. *)
Definition pair_time (cur next : Progress) : timedelta :=
  let time_diff := timestamp next - timestamp cur in
  if (time_diff <? seconds MAX_SESSION_GAP_SECONDS) && (0 <? time_diff) then
    if Qlt_bool (percentage cur) (percentage next) then time_diff else 0
  else 0.

(** [for i in range(len(progresses) - 1)] *)
Fixpoint consecutive_time (progresses : list Progress) : timedelta :=
  match progresses with
  | cur :: (next :: _) as rest => pair_time cur next + consecutive_time rest
  | _ => 0
  end.

Definition doc_time (total_time : timedelta) (item : UUID * list Progress)
    : timedelta :=
  let progresses := snd item in
  if (length progresses <? 2)%nat then total_time
  else total_time + consecutive_time (stable_sort ts_asc progresses).

Definition get_total_reading_time_estimate (st : Store) (user : option UUID)
    : timedelta :=
  let all_progress := get_all_progress_for_user st user in
  if (length all_progress <? 2)%nat then 0
  else
    let all_progress := stable_sort ts_asc all_progress in
    let progress_by_doc := fold_left group_step all_progress [] in
    fold_left doc_time progress_by_doc 0.

(** [l[:limit]] *)
Definition slice_to {A} (limit : Z) (l : list A) : list A :=
  if 0 <=? limit then take (Z.to_nat limit) l
  else take (Z.to_nat (Z.of_nat (length l) + limit)) l.

Section most_read.
Context {R : Type} `{BookRepository R}.

Definition most_read_step (book_repository : R) (item : UUID * Progress)
    : option (Book * Q) :=
  match get_book_by_id book_repository (fst item) with
  | Some book => Some (book, percentage (snd item))
  | None => None
  end.

Definition get_most_read_books (book_repository : R) (st : Store)
    (user : option UUID) (limit : Z) : list (Book * Q) :=
  let all_progress := get_all_progress_for_user st user in
  match all_progress with
  | [] => []
  | _ =>
      let sorted_progress_tuples :=
        stable_sort pct_desc (latest_progress_per_book all_progress) in
      omap (most_read_step book_repository) (slice_to limit sorted_progress_tuples)
  end.
End most_read.

Definition get_average_read_percentage (st : Store) (user : option UUID)
    : option Q :=
  let all_progress := get_all_progress_for_user st user in
  match all_progress with
  | [] => None
  | _ =>
      match latest_progress_per_book all_progress with
      | [] => None
      | latest =>
          let total_percentage :=
            fold_left Qplus (map percentage (dict_values latest)) (0 : Q) in
          Some (total_percentage / inject_Z (Z.of_nat (length latest)))%Q
      end
  end.

(** ** Calendar dates, for [datetime.strftime]

    The proleptic Gregorian calendar datetime uses: the civil date of a day
    count relative to 1970-01-01. *)
Definition civil_from_days (days : Z) : Z * Z * Z :=
  let z := days + 719468 in
  let era := z / 146097 in
  let doe := z - era * 146097 in
  let yoe := (doe - doe / 1460 + doe / 36524 - doe / 146096) / 365 in
  let doy := doe - (365 * yoe + yoe / 4 - yoe / 100) in
  let mp := (5 * doy + 2) / 153 in
  let d := doy - (153 * mp + 2) / 5 + 1 in
  let m := if mp <? 10 then mp + 3 else mp - 9 in
  let y := yoe + era * 400 in
  (if m <=? 2 then y + 1 else y, m, d).

Definition date_of (t : datetime) : Z * Z * Z :=
  civil_from_days (t / seconds 86400).

Definition digit (n : Z) : ascii := ascii_of_N (48 + Z.to_N (n mod 10)).

(** Decimal fields of two and of four digits; [%m] and [%d] are padded to
    two digits. *)
Definition pad2 (n : Z) : string :=
  String (digit (n / 10)) (String (digit n) EmptyString).
Definition pad4 (n : Z) : string :=
  String (digit (n / 1000)) (String (digit (n / 100)) (pad2 n)).

(** [%Y] as the C library (glibc) renders it: the year in decimal, not
    padded, so a year below 1000 has fewer than four digits.  The year of
    a datetime lies between 1 and 9999. *)
Definition decimal_year (y : Z) : string :=
  if y <? 10 then String (digit y) EmptyString
  else if y <? 100 then pad2 y
  else if y <? 1000 then String (digit (y / 100)) (pad2 y)
  else pad4 y.

Definition strftime_Y (t : datetime) : string :=
  let '(y, _, _) := date_of t in decimal_year y.
Definition strftime_Y_m (t : datetime) : string :=
  let '(y, m, _) := date_of t in decimal_year y +:+ "-" +:+ pad2 m.
Definition strftime_Y_m_d (t : datetime) : string :=
  let '(y, m, d) := date_of t in
  decimal_year y +:+ "-" +:+ pad2 m +:+ "-" +:+ pad2 d.

(** The year of a datetime. *)
Definition year_of (t : datetime) : Z := fst (fst (date_of t)).

(** Order of the items [(period_key, count)] under [sorted]. *)
Definition item_le (a b : string * Q) : bool :=
  String.ltb (fst a) (fst b)
  || (String.eqb (fst a) (fst b) && Qle_bool (snd a) (snd b)).

(** [activity[period_key] += 1] on a [defaultdict(float)]. *)
Definition activity_incr (activity : dict string Q) (period_key : string)
    : dict string Q :=
  dict_set activity period_key
           (default (0 : Q) (dict_get activity period_key) + 1)%Q.

Definition period_key_of (period : string) (p : Progress) : string :=
  if String.eqb period "month" then strftime_Y_m (timestamp p)
  else if String.eqb period "year" then strftime_Y (timestamp p)
  else strftime_Y_m_d (timestamp p).

Definition activity_step (period : string) (activity : dict string Q)
    (item : UUID * Progress) : dict string Q :=
  let p := snd item in
  if Qle_bool (95 # 100) (percentage p)
  then activity_incr activity (period_key_of period p)
  else activity.

Definition get_reading_activity_over_time (st : Store) (user : option UUID)
    (period : string) : dict string Q :=
  let all_progress := get_all_progress_for_user st user in
  match all_progress with
  | [] => []
  | _ =>
      let activity :=
        fold_left (activity_step period)
                  (latest_progress_per_book all_progress) [] in
      stable_sort item_le activity
  end.

(** ** InMemoryBookRepository, [domains/library/repository.py] *)

(** What the repository can raise; [KeyError] is Python's, from [del] on a
    key that is absent. *)
Inductive LibraryError :=
  | BookAlreadyExistsError (document_id : string)
  | BookNotFoundError (book_id : UUID)
  | KeyError.

(** [self._books], [self._books_by_doc_id], [self._book_order_for_listing] *)
Record BookStore := mkBookStore {
  _books : gmap UUID Book;
  _books_by_doc_id : gmap string UUID;
  _book_order_for_listing : list UUID
}.

Definition empty_book_store : BookStore :=
  {| _books := ∅; _books_by_doc_id := ∅; _book_order_for_listing := [] |}.

Definition create_book (repo : BookStore) (book : Book)
    : LibraryError + (BookStore * Book) :=
  if decide (is_Some (_books repo !! book_id book)) then
    inl (BookAlreadyExistsError (book_document_id book))
  else if decide (is_Some (_books_by_doc_id repo !! book_document_id book)) then
    inl (BookAlreadyExistsError (book_document_id book))
  else
    let new_book := book in
    inr ({| _books := <[book_id new_book := new_book]> (_books repo);
            _books_by_doc_id :=
              <[book_document_id new_book := book_id new_book]>
                (_books_by_doc_id repo);
            _book_order_for_listing :=
              if decide (book_id new_book ∈ _book_order_for_listing repo)
              then _book_order_for_listing repo
              else _book_order_for_listing repo ++ [book_id new_book] |},
         new_book).

#[export] Instance BookStore_repository : BookRepository BookStore := {
  get_book_by_id repo id := _books repo !! id
}.

(** A UUID is always true in a condition, so [if book_id:] only tests that
    the document is known. *)
Definition get_book_by_document_id (repo : BookStore) (doc : string)
    : option Book :=
  match _books_by_doc_id repo !! doc with
  | Some id => _books repo !! id
  | None => None
  end.

(** [l[start:stop]], Python's slice with its treatment of negative and
    out-of-range bounds. *)
Definition slice_index {A} (l : list A) (i : Z) : nat :=
  let n := Z.of_nat (length l) in
  Z.to_nat (if i <? 0 then Z.max 0 (n + i) else Z.min i n).

Definition slice {A} (l : list A) (start stop : Z) : list A :=
  drop (slice_index l start) (take (slice_index l stop) l).

Definition list_books (repo : BookStore) (offset limit : Z)
    : list Book * nat :=
  let total_count := length (_book_order_for_listing repo) in
  let offset := if offset <? 0 then 0 else offset in
  let limit := if limit <=? 0 then 20 else limit in
  let book_ids_page :=
    slice (_book_order_for_listing repo) offset (offset + limit) in
  (omap (fun id => _books repo !! id) book_ids_page, total_count).

(** [book.document_id in self._books_by_doc_id and
    self._books_by_doc_id[book.document_id] != book.id] *)
Definition document_id_taken (repo : BookStore) (book : Book) : bool :=
  match _books_by_doc_id repo !! book_document_id book with
  | Some other => bool_decide (other <> book_id book)
  | None => false
  end.

Definition update_book (repo : BookStore) (book : Book)
    : LibraryError + (BookStore * Book) :=
  match _books repo !! book_id book with
  | None => inl (BookNotFoundError (book_id book))
  | Some original_book =>
      let updated_book := book in
      if decide (book_document_id original_book <> book_document_id book) then
        if document_id_taken repo book then
          inl (BookAlreadyExistsError (book_document_id book))
        else
          match _books_by_doc_id repo !! book_document_id original_book with
          | None => inl KeyError
          | Some _ =>
              inr ({| _books :=
                        <[book_id updated_book := updated_book]> (_books repo);
                      _books_by_doc_id :=
                        <[book_document_id book := book_id book]>
                          (delete (book_document_id original_book)
                                  (_books_by_doc_id repo));
                      _book_order_for_listing := _book_order_for_listing repo |},
                   updated_book)
          end
      else
        inr ({| _books := <[book_id updated_book := updated_book]> (_books repo);
                _books_by_doc_id := _books_by_doc_id repo;
                _book_order_for_listing := _book_order_for_listing repo |},
             updated_book)
  end.

(** [list.remove(x)]: the first occurrence. *)
Fixpoint remove_first (x : UUID) (l : list UUID) : list UUID :=
  match l with
  | [] => []
  | y :: l' => if decide (y = x) then l' else y :: remove_first x l'
  end.

Definition delete_book (repo : BookStore) (id : UUID)
    : LibraryError + BookStore :=
  match _books repo !! id with
  | None => inl (BookNotFoundError id)
  | Some book_to_delete =>
      inr {| _books := delete id (_books repo);
             _books_by_doc_id :=
               delete (book_document_id book_to_delete) (_books_by_doc_id repo);
             _book_order_for_listing :=
               remove_first id (_book_order_for_listing repo) |}
  end.

(** ** LibraryService, [domains/library/service.py] (the listing) *)

Definition list_all_books (repo : BookStore) (page page_size : Z)
    : list Book * nat :=
  let page := if page <? 1 then 1 else page in
  let page_size := if page_size <? 1 then 20 else page_size in
  let offset := (page - 1) * page_size in
  list_books repo offset page_size.

(** ** StatsService, [domains/stats/service.py] *)

(** [str(n)] of an integer. *)
Definition str_int (n : Z) : string := NilZero.string_of_int (Z.to_int n).

(** The dictionary [get_user_reading_summary] returns. *)
Record ReadingSummary := mkReadingSummary {
  total_books_started : nat;
  total_books_finished : nat;
  total_reading_time_estimate : string;
  average_read_percentage : option Q
}.

(** [timedelta.total_seconds] divides the exact number of microseconds by
    [10**6]; the true division of two integers yields the double nearest
    to the exact quotient, ties to even.  A positive double is given by
    its mantissa of 53 bits and its exponent: [(m, e)] is [m * 2^e]. *)

(** The integer nearest to [n / d], ties to even, for [0 < d]. *)
Definition round_half_even (n d : Z) : Z :=
  let q := n / d in
  let r := n mod d in
  if 2 * r <? d then q
  else if d <? 2 * r then q + 1
  else if Z.even q then q else q + 1.

(** [floor (log2 (n / d))], for positive [n] and [d]. *)
Definition log2_ratio (n d : Z) : Z :=
  let l := Z.log2 n - Z.log2 d in
  if (if 0 <=? l then d * 2 ^ l <=? n else d <=? n * 2 ^ (- l))
  then l else l - 1.

(** [n / d] as a double, for positive [n] and [d]. *)
Definition true_divide (n d : Z) : Z * Z :=
  let e := log2_ratio n d - 52 in
  (if 0 <=? e then round_half_even n (d * 2 ^ e)
   else round_half_even (n * 2 ^ (- e)) d,
   e).

(** [int(x)] of a positive double: its integral part. *)
Definition int_of_double (x : Z * Z) : Z :=
  let '(m, e) := x in
  if 0 <=? e then m * 2 ^ e else m / 2 ^ (- e).

(** [int(reading_time_td.total_seconds())] *)
Definition whole_seconds (td : timedelta) : Z :=
  if td =? 0 then 0
  else Z.sgn td * int_of_double (true_divide (Z.abs td) 1000000).

Definition get_user_reading_summary (st : Store) (user : option UUID)
    : ReadingSummary :=
  let total_started := get_total_books_started st user in
  let total_finished := get_total_books_finished st user (95 # 100) in
  let reading_time_td := get_total_reading_time_estimate st user in
  let avg_percentage := get_average_read_percentage st user in
  let total_seconds := whole_seconds reading_time_td in
  let hours := total_seconds / 3600 in
  let minutes := (total_seconds mod 3600) / 60 in
  let reading_time_str :=
    str_int hours +:+ " hours, " +:+ str_int minutes +:+ " minutes" in
  {| total_books_started := total_started;
     total_books_finished := total_finished;
     total_reading_time_estimate := reading_time_str;
     average_read_percentage := avg_percentage |}.

Definition get_user_activity_timeline (st : Store) (user : option UUID)
    (period : string) : dict string Q :=
  get_reading_activity_over_time st user period.

(** ** Auxiliary notions used to state the properties *)

(** The entry the two single-entry lookups return from the filtered list:
    the head of the list sorted by descending timestamp. *)
Definition latest_of (l : list Progress) : option Progress :=
  head (stable_sort ts_desc l).

(** Of two candidates the left one wins unless the right one is newer. *)
Definition pick (a b : option Progress) : option Progress :=
  match a, b with
  | None, r => r
  | r, None => r
  | Some x, Some y => if timestamp y <=? timestamp x then Some x else Some y
  end.

(** The stored entries that [save_progress] drops or replaces for
    [progress]: same key, timestamp not newer. *)
Definition superseded (progress entry : Progress) : bool :=
  same_key entry progress && (timestamp entry <=? timestamp progress).

(** The canonical entry of a key after a sequence of submissions: the one
    of maximal timestamp, the later submission winning among equals. *)
Definition newest (acc : option Progress) (p : Progress) : option Progress :=
  match acc with
  | Some m => if timestamp m <=? timestamp p then Some p else Some m
  | None => Some p
  end.

Definition canonical_of (ps : list Progress) (d : UUID) (v : option UUID)
    : option Progress :=
  fold_left newest
            (filter (fun p => document_id p = d /\ device_id p = v) ps) None.

(** Sample identifiers and entries used in the worked examples: one user,
    documents [doc_A], [doc_B], [doc_C], devices [dev_D1], [dev_D2],
    [dev_D3]; [sample d dev pct t] is the entry of that user for document
    [d] from device [dev] at [t] seconds. *)
Definition user_1 : UUID := 7%N.
Definition doc_A : UUID := 1%N.
Definition doc_B : UUID := 2%N.
Definition doc_C : UUID := 3%N.
Definition dev_D1 : UUID := 11%N.
Definition dev_D2 : UUID := 12%N.
Definition dev_D3 : UUID := 13%N.

Definition sample (d dev : UUID) (pct : Q) (t : Z) : Progress :=
  {| document_id := d;
     user_id := Some user_1;
     percentage := pct;
     progress_detail := EmptyString;
     device_name := "KOReader";
     device_id := Some dev;
     timestamp := seconds t |}.

(** *** The reading-time estimate, following the words of the specification

    For each document of the user, its samples in ascending order of
    timestamp; for each consecutive pair the time delta counts only if it is
    strictly positive, strictly below the two-hour cap, and the percentage
    strictly increased; the estimate is the sum over the documents. *)

#[local] Instance Qlt_decision (a b : Q) : Decision (a < b)%Q :=
  match Qlt_le_dec a b with
  | left H => left H
  | right H => right (Qle_not_lt _ _ H)
  end.

Definition SESSION_GAP_CAP : timedelta := seconds (2 * 3600).

Definition counted_delta (cur next : Progress) : timedelta :=
  let delta := timestamp next - timestamp cur in
  if decide (0 < delta /\ delta < SESSION_GAP_CAP
             /\ (percentage cur < percentage next)%Q)
  then delta else 0.

Fixpoint sum_consecutive (samples : list Progress) : timedelta :=
  match samples with
  | cur :: (next :: _) as rest => counted_delta cur next + sum_consecutive rest
  | _ => 0
  end.

Definition documents_of (entries : list Progress) : list UUID :=
  remove_dups (map document_id entries).

Definition samples_of (entries : list Progress) (d : UUID) : list Progress :=
  stable_sort ts_asc (filter (fun p => document_id p = d) entries).

Definition sum_Z (l : list Z) : Z := foldr Z.add 0 l.

Definition reading_time_spec (entries : list Progress) : timedelta :=
  sum_Z (map (fun d => sum_consecutive (samples_of entries d))
             (documents_of entries)).

(** A dictionary that holds [f k] under each key [k] of a list. *)
Definition tabulate {K V} (f : K -> V) (ks : list K) : dict K V :=
  map (fun k => (k, f k)) ks.

(** The distinct elements of a list, in order of first occurrence: the
    order in which a dictionary receives its keys. *)
Fixpoint distinct {K} `{EqDecision K} (l : list K) : list K :=
  match l with
  | [] => []
  | x :: l' => x :: filter (fun y => y <> x) (distinct l')
  end.

(** *** The most-read books, following the words of the specification

    The representative entry of a document is its entry of maximal
    timestamp; the representatives are sorted by descending percentage, the
    first [limit] are kept, and each is resolved to its book, those without
    a book being skipped. *)

Definition representative (entries : list Progress) (d : UUID)
    : option Progress :=
  latest_of (filter (fun p => document_id p = d) entries).

Definition representatives (entries : list Progress) : dict UUID Progress :=
  omap (fun d => pair d <$> representative entries d)
       (distinct (map document_id entries)).

Definition most_read_spec {R} `{BookRepository R} (book_repository : R)
    (entries : list Progress) (limit : nat) : list (Book * Q) :=
  omap (fun item : UUID * Progress =>
          book ← get_book_by_id book_repository (fst item);
          Some (book, percentage (snd item)))
       (take limit (stable_sort pct_desc (representatives entries))).

(** Sample books for the worked example. *)
Definition sample_book (d : UUID) (name : string) : Book :=
  {| book_id := d; title := name; author := None;
     created_at := 0; updated_at := 0;
     book_document_id := name; file_path := name +:+ ".epub";
     format := Some "epub"; cover_path := None |}.

Definition sample_books : gmap UUID Book :=
  <[doc_A := sample_book doc_A "A"]>
    (<[doc_B := sample_book doc_B "B"]>
       (<[doc_C := sample_book doc_C "C"]> ∅)).

Definition sample_history : Store :=
  [sample doc_A dev_D1 (90 # 100) 1000;
   sample doc_B dev_D1 (40 # 100) 2000;
   sample doc_C dev_D2 (99 # 100) 3000].

(** *** Day buckets of finished books, following the words of the
    specification

    A document is finished when its representative entry has a percentage
    of at least 0.95; [day_count entries k] is the number of finished
    documents whose representative entry falls on the day [k]. *)

#[local] Instance Qle_decision (a b : Q) : Decision (a <= b)%Q :=
  match Qlt_le_dec b a with
  | left H => right (Qlt_not_le _ _ H)
  | right H => left H
  end.

Definition finished (item : UUID * Progress) : Prop :=
  (95 # 100 <= percentage (snd item))%Q.

Definition bucket_count (key_of : Progress -> string)
    (items : list (UUID * Progress)) (k : string) : nat :=
  length (filter (fun item => finished item /\ key_of (snd item) = k) items).

Definition day_count (entries : list Progress) (k : string) : nat :=
  bucket_count (fun p => strftime_Y_m_d (timestamp p))
               (representatives entries) k.

(** The float held by a bucket that was incremented [n] times. *)
Definition count_value (n : nat) : option Q :=
  match n with
  | O => None
  | S _ => Some (inject_Z (Z.of_nat n))
  end.

(** Two documents finished on 2023-11-14 and one unfinished one. *)
Definition sample_finished : Store :=
  [sample doc_A dev_D1 (100 # 100) 1700000000;
   sample doc_B dev_D2 (96 # 100) 1700003600;
   sample doc_C dev_D1 (40 # 100) 1700007200].

(** *** Notions used by the further properties *)

(** The sum of the floats of a list. *)
Definition sum_Q (l : list Q) : Q := foldr Qplus 0%Q l.

(** The number of documents whose representative entry reaches a
    threshold. *)
Definition count_reaching (threshold : Q) (items : dict UUID Progress) : nat :=
  length (filter (fun item => Is_true (Qle_bool threshold
                                          (percentage (snd item)))) items).

(** The books of a repository in listing order. *)
Definition all_books (repo : BookStore) : list Book :=
  omap (fun id => _books repo !! id) (_book_order_for_listing repo).

(** Consistency of the three structures of a book repository: a book is
    stored under its own identifier, the index by document identifier
    holds exactly the stored books, and the listing order holds each stored
    identifier once. *)
Record book_store_consistent (repo : BookStore) : Prop := {
  consistent_id : forall id b, _books repo !! id = Some b -> book_id b = id;
  consistent_doc : forall id b,
    _books repo !! id = Some b ->
    _books_by_doc_id repo !! book_document_id b = Some id;
  consistent_index : forall doc id,
    _books_by_doc_id repo !! doc = Some id ->
    exists b, _books repo !! id = Some b /\ book_document_id b = doc;
  consistent_order_nodup : NoDup (_book_order_for_listing repo);
  consistent_order : forall id,
    id ∈ _book_order_for_listing repo <-> is_Some (_books repo !! id)
}.

(** A repository holding the one sample book "A". *)
Definition sample_library : BookStore :=
  {| _books := <[doc_A := sample_book doc_A "A"]> ∅;
     _books_by_doc_id := <["A"%string := doc_A]> ∅;
     _book_order_for_listing := [doc_A] |}.

(** * Properties *)

(** ** The stable sort *)

Section stable_sort_facts.
Context {A : Type} (leb : A -> A -> bool).
Hypothesis leb_total : forall x y, leb x y = true \/ leb y x = true.
Hypothesis leb_trans :
  forall x y z, leb x y = true -> leb y z = true -> leb x z = true.

Local Abbreviation R := (fun x y => leb x y = true).

Lemma insert_stable_perm x l : insert_stable leb x l ≡ₚ x :: l.
Proof.
  induction l as [|y l IH]; simpl; [done|].
  destruct (leb x y); [done|].
  rewrite IH. apply Permutation_swap.
Qed.

Lemma stable_sort_perm l : stable_sort leb l ≡ₚ l.
Proof.
  induction l as [|x l IH]; simpl; [done|].
  by rewrite insert_stable_perm, IH.
Qed.

Lemma elem_of_stable_sort x l : x ∈ stable_sort leb l <-> x ∈ l.
Proof. by rewrite stable_sort_perm. Qed.

Lemma length_stable_sort l : length (stable_sort leb l) = length l.
Proof. by rewrite stable_sort_perm. Qed.

Lemma insert_stable_ssorted x l :
  StronglySorted R l -> StronglySorted R (insert_stable leb x l).
Proof.
  induction l as [|y l IH]; simpl; intros Hl.
  - repeat constructor.
  - apply StronglySorted_cons in Hl as [Hy Hl].
    destruct (leb x y) eqn:Hxy.
    + apply StronglySorted_cons. split.
      * constructor; [done|].
        eapply Forall_impl; [exact Hy|]. simpl. eauto.
      * by apply StronglySorted_cons.
    + apply StronglySorted_cons. split; [|by apply IH].
      rewrite insert_stable_perm. constructor; [|done].
      destruct (leb_total x y); congruence.
Qed.

Lemma stable_sort_ssorted l : StronglySorted R (stable_sort leb l).
Proof.
  induction l; simpl; [constructor|by apply insert_stable_ssorted].
Qed.

(** An element that is below the head goes in front. *)
Lemma insert_stable_front x l :
  match l with [] => True | y :: _ => leb x y = true end ->
  insert_stable leb x l = x :: l.
Proof. destruct l; simpl; [done|]. by intros ->. Qed.

(** Sorting a sorted list changes nothing: the sort is stable. *)
Lemma stable_sort_id l : StronglySorted R l -> stable_sort leb l = l.
Proof.
  induction l as [|x l IH]; simpl; [done|].
  intros [Hx Hl]%StronglySorted_cons. rewrite IH by done.
  apply insert_stable_front. destruct l; [done|]. by inv Hx.
Qed.

Lemma stable_sort_idemp l :
  stable_sort leb (stable_sort leb l) = stable_sort leb l.
Proof. apply stable_sort_id, stable_sort_ssorted. Qed.

(** Filtering commutes with the stable sort. *)
Lemma filter_insert_stable (P : A -> Prop) `{!forall x, Decision (P x)} x l :
  StronglySorted R l ->
  filter P (insert_stable leb x l)
  = if decide (P x) then insert_stable leb x (filter P l) else filter P l.
Proof.
  induction l as [|y l IH]; simpl; intros Hl.
  - rewrite filter_cons, filter_nil. by destruct (decide (P x)).
  - apply StronglySorted_cons in Hl as [Hy Hl].
    destruct (leb x y) eqn:Hxy.
    + rewrite filter_cons. destruct (decide (P x)); [|done].
      symmetry. apply insert_stable_front.
      destruct (filter P (y :: l)) as [|z l'] eqn:Hf; [done|].
      assert (z ∈ y :: l) as Hz.
      { eapply (list_elem_of_filter P). rewrite Hf. left. }
      apply elem_of_cons in Hz as [->|Hz]; [done|].
      rewrite Forall_forall in Hy. eauto.
    + rewrite !(filter_cons _ y), IH by done.
      destruct (decide (P x)), (decide (P y)); simpl; try done.
      by rewrite Hxy.
Qed.

Lemma filter_stable_sort (P : A -> Prop) `{!forall x, Decision (P x)} l :
  filter P (stable_sort leb l) = stable_sort leb (filter P l).
Proof.
  induction l as [|x l IH]; simpl; [done|].
  rewrite filter_insert_stable by apply stable_sort_ssorted.
  rewrite filter_cons, IH. by destruct (decide (P x)).
Qed.

Lemma head_insert_stable x l :
  head (insert_stable leb x l)
  = match head l with
    | None => Some x
    | Some y => if leb x y then Some x else Some y
    end.
Proof. destruct l as [|y l]; simpl; [done|]. by destruct (leb x y). Qed.
End stable_sort_facts.

(** ** The entry a lookup returns: the first one of maximal timestamp *)

Ltac cmp_step :=
  match goal with
  | |- context [Z.geb ?a ?b] => rewrite (Z.geb_leb a b)
  | |- context [Z.leb ?a ?b] => destruct (Z.leb_spec a b)
  | |- context [Z.ltb ?a ?b] => destruct (Z.ltb_spec a b)
  | H : context [Z.leb ?a ?b] |- _ => destruct (Z.leb_spec a b)
  | H : context [Z.ltb ?a ?b] |- _ => destruct (Z.ltb_spec a b)
  end.

Ltac cmp_cases :=
  repeat (cmp_step; simpl in *);
  try done; try lia; try (exfalso; lia).

Lemma latest_of_cons x l : latest_of (x :: l) = pick (Some x) (latest_of l).
Proof.
  unfold latest_of. simpl. rewrite head_insert_stable.
  destruct (head _); simpl; [|done]. unfold ts_desc. by destruct (_ <=? _).
Qed.

Lemma pick_assoc a b c : pick a (pick b c) = pick (pick a b) c.
Proof. destruct a, b, c; simpl; try done; cmp_cases. Qed.

Lemma latest_of_app l1 l2 :
  latest_of (l1 ++ l2) = pick (latest_of l1) (latest_of l2).
Proof.
  induction l1 as [|x l1 IH]; simpl.
  - by destruct (latest_of l2).
  - by rewrite !latest_of_cons, IH, pick_assoc.
Qed.

Lemma latest_of_None l : latest_of l = None <-> l = [].
Proof.
  destruct l as [|x l]; [done|]. rewrite latest_of_cons.
  split; [|done]. destruct (latest_of l); simpl; [|done]. by destruct (_ <=? _).
Qed.

Lemma latest_of_elem l m : latest_of l = Some m -> m ∈ l.
Proof.
  unfold latest_of. intros Hm. apply (elem_of_stable_sort ts_desc).
  destruct (stable_sort _ _); simplify_eq/=. left.
Qed.

Lemma latest_of_max l m e :
  latest_of l = Some m -> e ∈ l -> timestamp e <= timestamp m.
Proof.
  revert m. induction l as [|x l IH]; intros m Hm He; [by inv He|].
  rewrite latest_of_cons in Hm.
  destruct (latest_of l) as [y|] eqn:Hy; simpl in Hm.
  - apply elem_of_cons in He as [->|He].
    + cmp_cases; simplify_eq; lia.
    + specialize (IH y eq_refl He). cmp_cases; simplify_eq; lia.
  - apply latest_of_None in Hy as ->. simplify_eq.
    apply elem_of_cons in He as [->|He]; [lia|by inv He].
Qed.

(** The entries before the returned one are strictly older. *)
Lemma latest_of_first l m :
  latest_of l = Some m ->
  exists l1 l2, l = l1 ++ m :: l2
    /\ Forall (fun e => timestamp e < timestamp m) l1.
Proof.
  revert m. induction l as [|x l IH]; intros m Hm; [done|].
  rewrite latest_of_cons in Hm.
  destruct (latest_of l) as [y|] eqn:Hy; simpl in Hm.
  - destruct (Z.leb_spec (timestamp y) (timestamp x)); simplify_eq.
    + by exists [], l.
    + destruct (IH m eq_refl) as (l1 & l2 & -> & Hl1).
      exists (x :: l1), l2. split; [done|]. constructor; [lia|done].
  - simplify_eq. by exists [], l.
Qed.

Lemma latest_of_intro l1 m l2 :
  Forall (fun e => timestamp e < timestamp m) l1 ->
  Forall (fun e => timestamp e <= timestamp m) l2 ->
  latest_of (l1 ++ m :: l2) = Some m.
Proof.
  intros H1 H2. rewrite latest_of_app, latest_of_cons.
  assert (pick (Some m) (latest_of l2) = Some m) as ->.
  { destruct (latest_of l2) as [y|] eqn:Hy; [|done]. simpl.
    apply latest_of_elem in Hy. rewrite Forall_forall in H2.
    specialize (H2 _ Hy). cmp_cases. }
  destruct (latest_of l1) as [y|] eqn:Hy; [|done]. simpl.
  apply latest_of_elem in Hy. rewrite Forall_forall in H1.
  specialize (H1 _ Hy). cmp_cases.
Qed.

(** Dropping the entries that are not newer than [t] keeps the result when
    the result is newer than [t]. *)
Lemma latest_of_filter_newer t l :
  latest_of (filter (fun e => t < timestamp e) l)
  = match latest_of l with
    | Some m => if t <? timestamp m then Some m else None
    | None => None
    end.
Proof.
  induction l as [|x l IH]; [done|].
  rewrite filter_cons, latest_of_cons.
  destruct (decide (t < timestamp x)).
  - rewrite latest_of_cons, IH.
    destruct (latest_of l) as [m|]; simpl; cmp_cases.
  - rewrite IH. destruct (latest_of l) as [m|]; simpl; cmp_cases.
Qed.

(** An entry older than all the others does not change the result. *)
Lemma latest_of_insert_older p l1 l2 :
  Forall (fun e => timestamp p < timestamp e) (l1 ++ l2) ->
  l1 ++ l2 <> [] ->
  latest_of (l1 ++ p :: l2) = latest_of (l1 ++ l2).
Proof.
  intros [H1 H2]%Forall_app Hne.
  rewrite !latest_of_app, latest_of_cons.
  destruct (latest_of l2) as [y|] eqn:Hy.
  - apply latest_of_elem in Hy. rewrite Forall_forall in H2.
    specialize (H2 _ Hy).
    assert (pick (Some p) (Some y) = Some y) as -> by (simpl; cmp_cases).
    done.
  - apply latest_of_None in Hy as ->. rewrite app_nil_r in Hne.
    destruct (latest_of l1) as [y|] eqn:Hy.
    + apply latest_of_elem in Hy. rewrite Forall_forall in H1.
      specialize (H1 _ Hy). simpl. cmp_cases.
    + by apply latest_of_None in Hy.
Qed.

(** ** The loop of [save_progress] *)

Lemma same_key_spec e p :
  same_key e p = true
  <-> document_id e = document_id p /\ device_id e = device_id p.
Proof.
  unfold same_key. rewrite andb_true_iff, !bool_decide_eq_true. done.
Qed.

Lemma same_key_refl p : same_key p p = true.
Proof. by apply same_key_spec. Qed.

Lemma save_loop_acc p es acc u :
  save_loop p es acc u
  = (acc ++ fst (save_loop p es [] u), snd (save_loop p es [] u)).
Proof.
  revert acc u. induction es as [|e es IH]; intros acc u; simpl.
  - by rewrite app_nil_r.
  - destruct (same_key e p), (timestamp p >=? timestamp e), u; simpl;
      rewrite ?(IH (acc ++ _)), ?(IH [_]), ?(IH acc); simpl;
      by rewrite <-?app_assoc.
Qed.

Lemma save_loop_cons p e es u :
  save_loop p (e :: es) [] u
  = if superseded p e then
      if u then save_loop p es [] true
      else (p :: fst (save_loop p es [] true), snd (save_loop p es [] true))
    else (e :: fst (save_loop p es [] u), snd (save_loop p es [] u)).
Proof.
  unfold superseded. simpl. rewrite Z.geb_leb.
  destruct (same_key e p), (timestamp e <=? timestamp p), u; simpl;
    try done; by rewrite save_loop_acc.
Qed.

Lemma filter_cons_false {A} (f : A -> bool) x l :
  filter (fun e => f e = false) (x :: l)
  = if f x then filter (fun e => f e = false) l
    else x :: filter (fun e => f e = false) l.
Proof. rewrite filter_cons. case_decide as H; by rewrite ?H; destruct (f x). Qed.

(** Once [updated] is set the loop only drops the superseded entries. *)
Lemma save_loop_updated p es :
  save_loop p es [] true
  = (filter (fun e => superseded p e = false) es, true).
Proof.
  induction es as [|e es IH]; [done|].
  rewrite save_loop_cons, IH, filter_cons_false.
  by destruct (superseded p e).
Qed.

(** While [updated] is unset nothing has been superseded. *)
Lemma save_loop_fresh p es :
  (snd (save_loop p es [] false) = true /\
   exists l1 l2, fst (save_loop p es [] false) = l1 ++ p :: l2
     /\ l1 ++ l2 = filter (fun e => superseded p e = false) es)
  \/ (snd (save_loop p es [] false) = false
      /\ fst (save_loop p es [] false) = es
      /\ Forall (fun e => superseded p e = false) es).
Proof.
  induction es as [|e es IH]; [by right|].
  rewrite save_loop_cons. destruct (superseded p e) eqn:He.
  - left. rewrite save_loop_updated. simpl. split; [done|].
    exists [], (filter (fun e => superseded p e = false) es).
    split; [done|]. simpl. by rewrite filter_cons_false, He.
  - simpl. destruct IH as [(Hu & l1 & l2 & Hr & Hf)|(Hu & Hr & Hall)].
    + left. split; [done|]. exists (e :: l1), l2.
      rewrite Hr, filter_cons_false, He. simpl. by rewrite Hf.
    + right. split; [done|]. rewrite Hr. split; [done|]. by constructor.
Qed.

(** ** The store after [save_progress] *)

Lemma save_progress_result st p : snd (save_progress st p) = p.
Proof. unfold save_progress. by destruct (save_loop p st [] false). Qed.

Lemma filter_all_false {A} (f : A -> bool) l :
  Forall (fun e => f e = false) l -> filter (fun e => f e = false) l = l.
Proof.
  induction 1 as [|x l Hx Hl IH]; [done|].
  by rewrite filter_cons_false, Hx, IH.
Qed.

Lemma save_loop_nothing_superseded p es :
  Forall (fun e => superseded p e = false) es ->
  save_loop p es [] false = (es, false).
Proof.
  induction 1 as [|e es He Hes IH]; [done|].
  by rewrite save_loop_cons, He, IH.
Qed.

(** The new store is the old one without the superseded entries, and with
    [p] put in once. *)
Lemma save_progress_shape st p :
  exists l1 l2, fst (save_progress st p) = l1 ++ p :: l2
    /\ l1 ++ l2 = filter (fun e => superseded p e = false) st.
Proof.
  unfold save_progress.
  destruct (save_loop_fresh p st) as [(Hu & l1 & l2 & Hr & Hf)|(Hu & Hr & Hall)];
    destruct (save_loop p st [] false) as [new u]; simpl in Hu, Hr; subst.
  - by exists l1, l2.
  - exists st, []. split; [done|]. rewrite app_nil_r.
    by rewrite (filter_all_false (superseded p)).
Qed.

(** Nothing superseded: [p] is appended, whether its key is new or every
    stored entry of its key is newer than [p]. *)
Lemma save_progress_append st p :
  Forall (fun e => superseded p e = false) st ->
  fst (save_progress st p) = st ++ [p].
Proof.
  intros Hall. unfold save_progress.
  by rewrite save_loop_nothing_superseded.
Qed.

Lemma elem_of_save_progress st p x :
  x ∈ fst (save_progress st p) -> x = p \/ x ∈ st.
Proof.
  destruct (save_progress_shape st p) as (l1 & l2 & -> & Hf).
  rewrite elem_of_app, elem_of_cons. intros [H|[->|H]]; [right|by left|right].
  all: assert (x ∈ filter (fun e => superseded p e = false) st)
    as [_ ?]%list_elem_of_filter; [rewrite <-Hf, elem_of_app; eauto|done].
Qed.

Lemma save_progress_stored st p : p ∈ fst (save_progress st p).
Proof.
  destruct (save_progress_shape st p) as (l1 & l2 & -> & _).
  apply elem_of_app. right. left.
Qed.

(** ** The lookups *)

Lemma get_progress_for_document_and_device_latest st d v :
  get_progress_for_document_and_device st d v
  = latest_of (filter (fun p => document_id p = d /\ device_id p = v) st).
Proof.
  unfold get_progress_for_document_and_device, latest_of.
  by destruct (filter _ st).
Qed.

Lemma get_latest_progress_latest st d u :
  get_latest_progress st d u
  = latest_of (filter (fun p => document_id p = d /\ user_id p = u) st).
Proof.
  unfold get_latest_progress, latest_of. by destruct (filter _ st).
Qed.

Lemma filter_filter_weaker {A} (P Q : A -> Prop)
    `{!forall x, Decision (P x)} `{!forall x, Decision (Q x)} (l : list A) :
  (forall x, x ∈ l -> P x -> Q x) -> filter P (filter Q l) = filter P l.
Proof.
  intros HPQ. induction l as [|x l IH]; [done|].
  rewrite (filter_cons Q), (filter_cons P).
  destruct (decide (Q x)), (decide (P x)).
  - rewrite filter_cons_True by done. f_equal. apply IH. set_solver.
  - rewrite filter_cons_False by done. apply IH. set_solver.
  - exfalso. set_solver.
  - apply IH. set_solver.
Qed.

(** Saving under one key leaves the lookup of every other key unchanged. *)
Lemma get_progress_for_document_and_device_save_other st p d v :
  (document_id p, device_id p) <> (d, v) ->
  get_progress_for_document_and_device (fst (save_progress st p)) d v
  = get_progress_for_document_and_device st d v.
Proof.
  intros Hkey. rewrite !get_progress_for_document_and_device_latest.
  destruct (save_progress_shape st p) as (l1 & l2 & -> & Hf).
  apply (f_equal latest_of).
  rewrite filter_app. rewrite filter_cons_False by (intros [??]; congruence).
  rewrite <-filter_app, Hf.
  apply filter_filter_weaker. intros e _ [<- <-].
  unfold superseded. apply andb_false_iff. left.
  apply not_true_is_false. rewrite same_key_spec. intros [??]. congruence.
Qed.

(** What the lookup of the saved key returns after [save_progress]: the
    saved entry, unless a strictly newer one was stored. *)
Lemma get_progress_for_document_and_device_save st p :
  get_progress_for_document_and_device (fst (save_progress st p))
    (document_id p) (device_id p)
  = match get_progress_for_document_and_device st
            (document_id p) (device_id p) with
    | Some m => if timestamp m <=? timestamp p then Some p else Some m
    | None => Some p
    end.
Proof.
  rewrite !get_progress_for_document_and_device_latest.
  set (P := fun e => document_id e = document_id p /\ device_id e = device_id p).
  destruct (save_progress_shape st p) as (l1 & l2 & -> & Hf).
  rewrite filter_app, filter_cons_True by done.
  assert (filter P l1 ++ filter P l2
          = filter (fun e => timestamp p < timestamp e) (filter P st)) as HK.
  { rewrite <-filter_app, Hf, !list_filter_filter. apply list_filter_iff.
    intros e. unfold superseded, P. split.
    - intros [[Hd Hv] Hs]. split; [|done].
      assert (same_key e p = true) as Hk by by apply same_key_spec.
      rewrite Hk in Hs. simpl in Hs. cmp_cases.
    - intros [Ht [Hd Hv]]. split; [done|].
      apply andb_false_iff. right. cmp_cases. }
  pose proof (latest_of_filter_newer (timestamp p) (filter P st)) as Hnew.
  rewrite <-HK in Hnew.
  assert (Forall (fun e => timestamp p < timestamp e)
                 (filter P l1 ++ filter P l2)) as Hall.
  { rewrite HK. apply Forall_forall. by intros e [? _]%list_elem_of_filter. }
  destruct (latest_of (filter P st)) as [m|].
  - destruct (Z.ltb_spec (timestamp p) (timestamp m)).
    + rewrite latest_of_insert_older, Hnew; [cmp_cases|done|].
      intros Hnil. by rewrite Hnil in Hnew.
    + apply latest_of_None, app_eq_nil in Hnew as [-> ->]. cmp_cases.
  - by apply latest_of_None, app_eq_nil in Hnew as [-> ->].
Qed.

(** An entry newer than every stored entry of its document and user becomes
    the user's latest entry for the document. *)
Lemma get_latest_progress_save_newer st p :
  (forall e, e ∈ st -> document_id e = document_id p ->
             user_id e = user_id p -> timestamp e < timestamp p) ->
  get_latest_progress (fst (save_progress st p)) (document_id p) (user_id p)
  = Some p.
Proof.
  intros Hnew. rewrite get_latest_progress_latest.
  destruct (save_progress_shape st p) as (l1 & l2 & -> & Hf).
  rewrite filter_app, filter_cons_True by done.
  assert (forall e, e ∈ l1 ++ l2 -> e ∈ st) as Hin.
  { intros e. rewrite Hf. by intros [_ ?]%list_elem_of_filter. }
  apply latest_of_intro; apply Forall_forall;
    intros e [[??] He]%list_elem_of_filter.
  - apply Hnew; [|done..]. apply Hin, elem_of_app. by left.
  - apply Z.lt_le_incl, Hnew; [|done..]. apply Hin, elem_of_app. by right.
Qed.

(** ** [save_progress]: insertion, replacement, and the stale submission *)

Lemma save_loop_prefix p l1 es u :
  Forall (fun e => superseded p e = false) l1 ->
  save_loop p (l1 ++ es) [] u
  = (l1 ++ fst (save_loop p es [] u), snd (save_loop p es [] u)).
Proof.
  induction 1 as [|e l1 He Hl1 IH]; simpl app.
  - by destruct (save_loop p es [] u).
  - by rewrite save_loop_cons, He, IH.
Qed.

(** No entry of the key is stored: [p] is inserted. *)
Lemma save_progress_insert st p :
  Forall (fun e => same_key e p = false) st ->
  fst (save_progress st p) = st ++ [p].
Proof.
  intros Hall. apply save_progress_append.
  eapply Forall_impl; [exact Hall|]. intros e He. unfold superseded.
  by rewrite He.
Qed.

(** The one entry of the key is not newer than [p]: it is replaced, in
    place, by [p]; this includes equal timestamps. *)
Lemma save_progress_replace l1 e l2 p :
  Forall (fun x => same_key x p = false) (l1 ++ l2) ->
  same_key e p = true ->
  timestamp e <= timestamp p ->
  fst (save_progress (l1 ++ e :: l2) p) = l1 ++ p :: l2.
Proof.
  intros [H1 H2]%Forall_app Hk Ht.
  assert (forall l, Forall (fun x => same_key x p = false) l ->
                    Forall (fun x => superseded p x = false) l) as Hsup.
  { intros l Hl. eapply Forall_impl; [exact Hl|].
    intros x Hx. unfold superseded. by rewrite Hx. }
  unfold save_progress. rewrite save_loop_prefix by auto.
  assert (superseded p e = true) as Hs.
  { unfold superseded. rewrite Hk. by apply Z.leb_le. }
  rewrite save_loop_cons, Hs, save_loop_updated. simpl.
  by rewrite (filter_all_false (superseded p)) by auto.
Qed.

(** C1 (the code departs from the claim).  A submission older than the
    stored entry of its key does not leave the store unchanged:
    [updated] stays unset when the stored entry is kept, so the stale
    submission is appended after it.  Here the store holds the entry of
    (doc_A, dev_D1) at 2000 s and the entry at 1000 s for the same key is
    saved. *)
Theorem C1_stale_submission_is_appended :
  let existing := sample doc_A dev_D1 (1 # 2) 2000 in
  let p := sample doc_A dev_D1 (1 # 4) 1000 in
  same_key existing p = true
  /\ timestamp p < timestamp existing
  /\ fst (save_progress [existing] p) = [existing; p]
  /\ fst (save_progress [existing] p) <> [existing].
Proof. cbv zeta. repeat split; try reflexivity. discriminate. Qed.

(** C3 (counterexample).  The stale submission [p] is returned, not the
    stored entry that stays canonical for the key. *)
Lemma C3_returns_stale_submission :
  let existing := sample doc_A dev_D1 (1 # 2) 2000 in
  let p := sample doc_A dev_D1 (1 # 4) 1000 in
  timestamp p < timestamp existing
  /\ snd (save_progress [existing] p) = p
  /\ snd (save_progress [existing] p) <> existing
  /\ get_progress_for_document_and_device (fst (save_progress [existing] p))
       doc_A (Some dev_D1) = Some existing.
Proof. cbv zeta. repeat split; try reflexivity. discriminate. Qed.

(** C3 (amended).  [save_progress] returns the submitted entry in every
    case.  The lookup of the key afterwards returns that entry unless a
    strictly newer entry of the key was stored, in which case the lookup
    still returns the stored one while the call has returned [p]. *)
Theorem C3_save_progress_returns_submission (st : Store) (p : Progress) :
  snd (save_progress st p) = p
  /\ get_progress_for_document_and_device (fst (save_progress st p))
       (document_id p) (device_id p)
     = match get_progress_for_document_and_device st
               (document_id p) (device_id p) with
       | Some m => if timestamp m <=? timestamp p then Some p else Some m
       | None => Some p
       end.
Proof.
  split; [apply save_progress_result|].
  apply get_progress_for_document_and_device_save.
Qed.

(** C4 (the code departs from the claim).  Two saves from the empty store,
    the second one older than the first for the same key, leave two
    entries under that key; it is the defect of C1. *)
Theorem C4_two_entries_for_one_key :
  let first := sample doc_A dev_D1 (1 # 2) 2000 in
  let second := sample doc_A dev_D1 (1 # 4) 1000 in
  save_all [] [first; second] = [first; second]
  /\ length (filter (fun e => document_id e = doc_A /\ device_id e = Some dev_D1)
                    (save_all [] [first; second])) = 2%nat.
Proof. cbv zeta. split; reflexivity. Qed.

(** What does hold after any sequence of saves from the empty store: the
    lookup of a key returns the canonical entry of the submissions made
    under that key. *)
Lemma save_all_canonical (ps : list Progress) (d : UUID) (v : option UUID) :
  get_progress_for_document_and_device (save_all [] ps) d v
  = canonical_of ps d v.
Proof.
  unfold save_all, canonical_of.
  induction ps as [|p ps IH] using rev_ind; [done|].
  rewrite fold_left_app, filter_app, filter_cons, filter_nil. simpl.
  set (st := fold_left (fun s q => fst (save_progress s q)) ps []) in *.
  destruct (decide (document_id p = d /\ device_id p = v)) as [[<- <-]|Hne].
  - rewrite fold_left_app. simpl.
    by rewrite get_progress_for_document_and_device_save, IH.
  - rewrite app_nil_r, get_progress_for_document_and_device_save_other; [done|].
    intros [= ? ?]. tauto.
Qed.

(** Saving the same entry twice leaves one entry. *)
Example save_twice_is_idempotent :
  save_all [] [sample doc_A dev_D1 (1 # 2) 2000; sample doc_A dev_D1 (1 # 2) 2000]
  = [sample doc_A dev_D1 (1 # 2) 2000].
Proof. reflexivity. Qed.

(** ** Latest entry across devices, canonical entry per device *)

Lemma latest_of_filter_spec (P : Progress -> Prop)
    `{!forall x, Decision (P x)} (l : list Progress) :
  match latest_of (filter P l) with
  | Some m =>
      m ∈ l /\ P m /\ forall e, e ∈ l -> P e -> timestamp e <= timestamp m
  | None => forall e, e ∈ l -> ~ P e
  end.
Proof.
  destruct (latest_of (filter P l)) as [m|] eqn:Hm.
  - pose proof (latest_of_elem _ _ Hm) as [? ?]%list_elem_of_filter.
    repeat split; [done..|]. intros e He HP.
    eapply latest_of_max; [exact Hm|]. by apply list_elem_of_filter.
  - apply latest_of_None in Hm. intros e He HP.
    eapply filter_nil_not_elem_of; eauto.
Qed.

(** C5.  [get_latest_progress] returns an entry of maximal timestamp among
    the stored entries of the document and user, whatever their device, and
    nothing when there is none; [get_progress_for_document_and_device]
    returns an entry of maximal timestamp among those of the exact
    (document, device) key.  Saving an entry [p] that is newer than every
    stored entry of its document and user makes [p] the user's latest entry
    for the document, and leaves the lookup of every other (document,
    device) key as it was. *)
Theorem C5_latest_across_devices_and_per_device
    (st : Store) (p : Progress) (d : UUID) (v : option UUID) :
  (document_id p, device_id p) <> (d, v) ->
  Forall (fun e => document_id e = document_id p -> user_id e = user_id p ->
                   timestamp e < timestamp p) st ->
  (forall d' u',
      match get_latest_progress st d' u' with
      | Some m =>
          m ∈ st /\ (document_id m = d' /\ user_id m = u')
          /\ forall e, e ∈ st -> document_id e = d' /\ user_id e = u' ->
                       timestamp e <= timestamp m
      | None => forall e, e ∈ st -> ~ (document_id e = d' /\ user_id e = u')
      end)
  /\ (forall d' v',
      match get_progress_for_document_and_device st d' v' with
      | Some m =>
          m ∈ st /\ (document_id m = d' /\ device_id m = v')
          /\ forall e, e ∈ st -> document_id e = d' /\ device_id e = v' ->
                       timestamp e <= timestamp m
      | None => forall e, e ∈ st -> ~ (document_id e = d' /\ device_id e = v')
      end)
  /\ get_latest_progress (fst (save_progress st p))
       (document_id p) (user_id p) = Some p
  /\ get_progress_for_document_and_device (fst (save_progress st p)) d v
     = get_progress_for_document_and_device st d v.
Proof.
  intros Hkey Hnew. repeat split.
  - intros d' u'. rewrite get_latest_progress_latest.
    apply (latest_of_filter_spec
             (fun e => document_id e = d' /\ user_id e = u')).
  - intros d' v'. rewrite get_progress_for_document_and_device_latest.
    apply (latest_of_filter_spec
             (fun e => document_id e = d' /\ device_id e = v')).
  - apply get_latest_progress_save_newer. rewrite Forall_forall in Hnew. eauto.
  - by apply get_progress_for_document_and_device_save_other.
Qed.

(** The example of the specification: D1 at 1000 s is stored, D2 at 5000 s
    is saved for the same document and user. *)
Lemma C5_cross_device_witness :
  let d1 := sample doc_A dev_D1 (1 # 10) 1000 in
  let d2 := sample doc_A dev_D2 (3 # 10) 5000 in
  get_latest_progress (fst (save_progress [d1] d2)) doc_A (Some user_1)
  = Some d2
  /\ get_progress_for_document_and_device (fst (save_progress [d1] d2))
       doc_A (Some dev_D1)
     = get_progress_for_document_and_device [d1] doc_A (Some dev_D1).
Proof.
  cbv zeta.
  refine (let H := C5_latest_across_devices_and_per_device
                     [sample doc_A dev_D1 (1 # 10) 1000]
                     (sample doc_A dev_D2 (3 # 10) 5000)
                     doc_A (Some dev_D1) _ _ in
          conj (proj1 (proj2 (proj2 H))) (proj2 (proj2 (proj2 H)))).
  - discriminate.
  - repeat constructor.
Defined.

(** ** [submit_progress] *)

(** C2 (counterexample).  A percentage of 3/2 is accepted: the call
    succeeds and the entry is stored with that percentage. *)
Lemma C2_out_of_range_percentage_is_stored :
  exists st' r,
    submit_progress [] (Some user_1) doc_A (3 # 2) None "KOReader"
                    (Some dev_D1) 1000 = inr (st', r)
    /\ r ∈ st' /\ percentage r = 3 # 2
    /\ ~ (0 <= 3 # 2 /\ 3 # 2 <= 1)%Q.
Proof.
  eexists _, _. split; [reflexivity|]. split; [left|]. split; [reflexivity|].
  intros [_ H]. by vm_compute in H.
Qed.

Lemma utcfromtimestamp_in_range t :
  MIN_UNIX_TIME <= t <= MAX_UNIX_TIME -> utcfromtimestamp t = inr (seconds t).
Proof.
  intros [H1 H2]. unfold utcfromtimestamp.
  apply Z.leb_le in H1, H2. by rewrite H1, H2.
Qed.

Lemma utcfromtimestamp_out_of_range t :
  ~ (MIN_UNIX_TIME <= t <= MAX_UNIX_TIME) ->
  utcfromtimestamp t = inl TimestampOutOfRange.
Proof.
  intros Hout. unfold utcfromtimestamp.
  destruct (Z.leb_spec MIN_UNIX_TIME t), (Z.leb_spec t MAX_UNIX_TIME);
    simpl; try done. lia.
Qed.

(** The only error of [submit_progress]: a time that datetime cannot hold;
    then there is no new store. *)
Lemma submit_progress_error st u d pct detail name dev t e :
  submit_progress st u d pct detail name dev t = inl e ->
  e = TimestampOutOfRange /\ ~ (MIN_UNIX_TIME <= t <= MAX_UNIX_TIME).
Proof.
  unfold submit_progress, Progress_validate.
  destruct (decide (MIN_UNIX_TIME <= t <= MAX_UNIX_TIME)) as [Hin|Hout].
  - by rewrite utcfromtimestamp_in_range.
  - rewrite utcfromtimestamp_out_of_range by done. by intros [= <-].
Qed.

(** C2 (amended).  [submit_progress] does not validate the percentage: for
    every percentage and every Unix time that datetime can hold the call
    succeeds, and the entry it hands to [save_progress] and returns carries
    the percentage as given, the time converted, and an empty detail when
    none was given; the new store is the one [save_progress] yields. *)
Theorem C2_submit_progress_accepts_any_percentage
    (st : Store) (u : option UUID) (d : UUID) (pct : Q)
    (detail : option string) (name : string) (dev : option UUID) (t : Z) :
  MIN_UNIX_TIME <= t <= MAX_UNIX_TIME ->
  exists st',
    let r := {| document_id := d; user_id := u; percentage := pct;
                progress_detail := default EmptyString detail;
                device_name := name; device_id := dev;
                timestamp := seconds t |} in
    submit_progress st u d pct detail name dev t = inr (st', r)
    /\ st' = fst (save_progress st r).
Proof.
  intros Hin. eexists. cbv zeta. unfold submit_progress, Progress_validate.
  rewrite utcfromtimestamp_in_range by done.
  split; [|reflexivity].
  rewrite (surjective_pairing (save_progress _ _)) at 1.
  by rewrite save_progress_result.
Qed.

Lemma C2_submit_progress_witness :
  exists st',
    submit_progress [] (Some user_1) doc_A (3 # 2) None "KOReader"
                    (Some dev_D1) 1000
    = inr (st', sample doc_A dev_D1 (3 # 2) 1000)
    /\ st' = fst (save_progress [] (sample doc_A dev_D1 (3 # 2) 1000)).
Proof.
  apply (C2_submit_progress_accepts_any_percentage
           [] (Some user_1) doc_A (3 # 2) None "KOReader" (Some dev_D1) 1000).
  unfold MIN_UNIX_TIME, MAX_UNIX_TIME. lia.
Defined.

(** ** [get_all_progress_for_user] *)

Lemma doc_ts_le_spec a b :
  doc_ts_le a b = true
  <-> (document_id a < document_id b)%N
      \/ (document_id a = document_id b /\ timestamp a <= timestamp b).
Proof.
  unfold doc_ts_le.
  rewrite orb_true_iff, andb_true_iff, N.ltb_lt, N.eqb_eq, Z.leb_le. done.
Qed.

Lemma doc_ts_desc_total a b : doc_ts_desc a b = true \/ doc_ts_desc b a = true.
Proof. unfold doc_ts_desc. rewrite !doc_ts_le_spec. lia. Qed.

Lemma doc_ts_desc_trans a b c :
  doc_ts_desc a b = true -> doc_ts_desc b c = true -> doc_ts_desc a c = true.
Proof. unfold doc_ts_desc. rewrite !doc_ts_le_spec. lia. Qed.

Lemma StronglySorted_lookup_lt {A} (R : relation A) l i j a b :
  StronglySorted R l -> (i < j)%nat ->
  l !! i = Some a -> l !! j = Some b -> R a b.
Proof.
  intros Hl. revert i j. induction Hl as [|x l Hl IH Hx]; intros i j Hij Hi Hj.
  - done.
  - destruct j as [|j]; [lia|]. destruct i as [|i]; simpl in *.
    + simplify_eq. rewrite Forall_forall in Hx.
      by eapply Hx, list_elem_of_lookup_2.
    + eapply (IH i j); [lia|done..].
Qed.

(** C8.  [get_all_progress_for_user] returns exactly the stored entries of
    the user (a permutation of them), ordered by the pair (document_id,
    timestamp), both descending: entries of one document are contiguous, and
    within a document timestamps descend.  The documents themselves come in
    descending order of identifier. *)
Theorem C8_get_all_progress_for_user_order (st : Store) (u : option UUID) :
  let l := get_all_progress_for_user st u in
  l ≡ₚ filter (fun p => user_id p = u) st
  /\ (forall i j a b, (i < j)%nat -> l !! i = Some a -> l !! j = Some b ->
        (document_id b < document_id a)%N
        \/ (document_id b = document_id a /\ timestamp b <= timestamp a))
  /\ (forall i j k a b c, (i < j < k)%nat ->
        l !! i = Some a -> l !! j = Some b -> l !! k = Some c ->
        document_id a = document_id c -> document_id b = document_id a)
  /\ (forall i j a b, (i < j)%nat -> l !! i = Some a -> l !! j = Some b ->
        document_id a = document_id b -> timestamp b <= timestamp a).
Proof.
  intros l.
  assert (forall i j a b, (i < j)%nat -> l !! i = Some a -> l !! j = Some b ->
            (document_id b < document_id a)%N
            \/ (document_id b = document_id a /\ timestamp b <= timestamp a))
    as Hsorted.
  { intros i j a b Hij Hi Hj. apply doc_ts_le_spec.
    change (doc_ts_desc a b = true).
    eapply (StronglySorted_lookup_lt (fun x y => doc_ts_desc x y = true));
      [|exact Hij|exact Hi|exact Hj].
    apply stable_sort_ssorted;
      [apply doc_ts_desc_total|apply doc_ts_desc_trans]. }
  split; [apply stable_sort_perm|]. split; [exact Hsorted|]. split.
  - intros i j k a b c [Hij Hjk] Hi Hj Hk Hac.
    pose proof (Hsorted i j a b Hij Hi Hj).
    pose proof (Hsorted j k b c Hjk Hj Hk). lia.
  - intros i j a b Hij Hi Hj Hab.
    pose proof (Hsorted i j a b Hij Hi Hj). lia.
Qed.

(** ** A user without entries *)

Lemma filter_none {A} (P : A -> Prop) `{!forall x, Decision (P x)} l :
  Forall (fun x => ~ P x) l -> filter P l = [].
Proof.
  induction 1 as [|x l Hx Hl IH]; [done|]. by rewrite filter_cons_False.
Qed.

Lemma get_all_progress_for_user_nil st u :
  Forall (fun p => user_id p <> u) st -> get_all_progress_for_user st u = [].
Proof.
  intros Hall. unfold get_all_progress_for_user.
  by rewrite (filter_none (fun p => user_id p = u)).
Qed.

(** C9.  For a user without stored entries the statistics are 0 books
    started, no average, a zero reading time, and an empty list of entries;
    the two single-entry lookups return nothing for a key without entry.
    (All these operations are total functions: none of them can raise.) *)
Theorem C9_empty_user (st : Store) (u : option UUID) :
  Forall (fun p => user_id p <> u) st ->
  get_total_books_started st u = 0%nat
  /\ get_average_read_percentage st u = None
  /\ get_total_reading_time_estimate st u = 0
  /\ get_all_progress_for_user st u = []
  /\ (forall d, get_latest_progress st d u = None)
  /\ (forall d v,
        Forall (fun p => ~ (document_id p = d /\ device_id p = v)) st ->
        get_progress_for_document_and_device st d v = None)
  /\ (forall d u',
        Forall (fun p => ~ (document_id p = d /\ user_id p = u')) st ->
        get_latest_progress st d u' = None).
Proof.
  intros Hall. pose proof (get_all_progress_for_user_nil st u Hall) as Hnil.
  unfold get_total_books_started, get_average_read_percentage,
    get_total_reading_time_estimate.
  rewrite Hnil. repeat split.
  - intros d. rewrite get_latest_progress_latest. apply latest_of_None.
    apply filter_none. eapply Forall_impl; [exact Hall|].
    intros p Hp [_ ?]. done.
  - intros d v Hnone. rewrite get_progress_for_document_and_device_latest.
    by apply latest_of_None, filter_none.
  - intros d u' Hnone. rewrite get_latest_progress_latest.
    by apply latest_of_None, filter_none.
Qed.

Lemma C9_empty_user_witness :
  let st := [sample doc_A dev_D1 (1 # 2) 1000] in
  get_total_books_started st (Some 8%N) = 0%nat
  /\ get_average_read_percentage st (Some 8%N) = None
  /\ get_total_reading_time_estimate st (Some 8%N) = 0
  /\ get_all_progress_for_user st (Some 8%N) = []
  /\ get_latest_progress st doc_A (Some 8%N) = None
  /\ get_progress_for_document_and_device st doc_B (Some dev_D1) = None.
Proof.
  cbv zeta.
  assert (Forall (fun p => user_id p <> Some 8%N)
                 [sample doc_A dev_D1 (1 # 2) 1000]) as Hnone.
  { constructor; [discriminate|constructor]. }
  destruct (C9_empty_user _ _ Hnone) as (H1 & H2 & H3 & H4 & H5 & H6 & _).
  assert (Forall (fun p => ~ (document_id p = doc_B /\ device_id p = Some dev_D1))
                 [sample doc_A dev_D1 (1 # 2) 1000]) as Hkey.
  { constructor; [|constructor]. intros [? _]. discriminate. }
  exact (conj H1 (conj H2 (conj H3 (conj H4 (conj (H5 _) (H6 _ _ Hkey)))))).
Defined.

(** ** Dictionaries *)

Section distinct_facts.
Context {K : Type} `{EqDecision K}.

Lemma elem_of_distinct (l : list K) x : x ∈ distinct l <-> x ∈ l.
Proof.
  induction l as [|y l IH]; simpl; [done|].
  rewrite !elem_of_cons, list_elem_of_filter, IH.
  destruct (decide (x = y)); tauto.
Qed.

Lemma NoDup_distinct (l : list K) : NoDup (distinct l).
Proof.
  induction l as [|y l IH]; simpl; constructor.
  - rewrite list_elem_of_filter. tauto.
  - by apply NoDup_filter.
Qed.

Lemma distinct_snoc (l : list K) x :
  distinct (l ++ [x]) = if decide (x ∈ l) then distinct l else distinct l ++ [x].
Proof.
  induction l as [|y l IH].
  - case_decide as Hx; [by inv Hx|done].
  - change (y :: filter (fun z => z <> y) (distinct (l ++ [x]))
            = if decide (x ∈ y :: l)
              then y :: filter (fun z => z <> y) (distinct l)
              else (y :: filter (fun z => z <> y) (distinct l)) ++ [x]).
    rewrite IH. destruct (decide (x ∈ l)) as [Hx|Hx].
    + rewrite decide_True by (by right). done.
    + rewrite filter_app, filter_cons, filter_nil.
      destruct (decide (x = y)) as [->|Hxy].
      * rewrite (decide_True (P := y ∈ y :: l)) by left.
        rewrite (decide_False (P := y <> y)) by tauto.
        by rewrite app_nil_r.
      * rewrite (decide_False (P := x ∈ y :: l))
          by (rewrite elem_of_cons; tauto).
        by rewrite (decide_True (P := x <> y)) by done.
Qed.
End distinct_facts.

Section dict_facts.
Context {K : Type} `{EqDecision K} {V : Type}.

Lemma dict_get_tabulate (f : K -> V) ks k :
  dict_get (tabulate f ks) k = if decide (k ∈ ks) then Some (f k) else None.
Proof.
  induction ks as [|k' ks IH]; simpl; [done|].
  destruct (decide (k' = k)) as [->|Hk].
  - by rewrite decide_True by left.
  - rewrite IH. destruct (decide (k ∈ ks)).
    + by rewrite decide_True by (by right).
    + by rewrite decide_False by (by intros [->|?]%elem_of_cons).
Qed.

Lemma dict_set_tabulate_new (f : K -> V) ks k v :
  k ∉ ks -> f k = v ->
  dict_set (tabulate f ks) k v = tabulate f (ks ++ [k]).
Proof.
  intros Hk <-. induction ks as [|k' ks IH]; simpl; [done|].
  apply not_elem_of_cons in Hk as [Hk Hks].
  rewrite decide_False by done. by rewrite IH.
Qed.

Lemma tabulate_ext (f g : K -> V) ks :
  (forall k, k ∈ ks -> f k = g k) -> tabulate f ks = tabulate g ks.
Proof.
  intros Hfg. apply map_ext_in. intros k Hk%list_elem_of_In.
  by rewrite Hfg.
Qed.

Lemma dict_set_tabulate_old (f g : K -> V) ks k v :
  NoDup ks -> k ∈ ks -> g k = v -> (forall k', k' <> k -> g k' = f k') ->
  dict_set (tabulate f ks) k v = tabulate g ks.
Proof.
  intros Hnd Hk <- Hg. induction Hnd as [|k' ks Hk' Hnd IH]; [by inv Hk|].
  simpl. destruct (decide (k' = k)) as [->|Hne].
  - rewrite (tabulate_ext f g ks); [done|].
    intros k' Hin. symmetry. apply Hg. by intros ->.
  - rewrite (Hg k') by done. rewrite IH; [done|].
    by apply elem_of_cons in Hk as [->|Hk].
Qed.
End dict_facts.

(** ** The reading-time estimate *)

Lemma ts_asc_total a b : ts_asc a b = true \/ ts_asc b a = true.
Proof. unfold ts_asc. rewrite !Z.leb_le. lia. Qed.

Lemma ts_asc_trans a b c :
  ts_asc a b = true -> ts_asc b c = true -> ts_asc a c = true.
Proof. unfold ts_asc. rewrite !Z.leb_le. lia. Qed.

(** [progress_by_doc] holds, under each document in order of first
    occurrence, the entries of that document in the order of the list. *)
Lemma group_by_document (l : list Progress) :
  fold_left group_step l []
  = tabulate (fun d => filter (fun p => document_id p = d) l)
             (distinct (map document_id l)).
Proof.
  induction l as [|x l IH] using rev_ind; [done|].
  rewrite fold_left_app, IH. simpl. unfold group_step.
  rewrite dict_get_tabulate, map_app. simpl. rewrite distinct_snoc.
  set (g := fun d => filter (fun p => document_id p = d) (l ++ [x])).
  assert (g (document_id x)
          = filter (fun p => document_id p = document_id x) l ++ [x]) as Hgx.
  { unfold g. by rewrite filter_app, filter_cons_True, filter_nil. }
  assert (forall d, d <> document_id x ->
            g d = filter (fun p => document_id p = d) l) as Hg.
  { intros d Hd. unfold g.
    rewrite filter_app, filter_cons_False, filter_nil, app_nil_r by done.
    done. }
  destruct (decide (document_id x ∈ distinct (map document_id l))) as [Hin|Hin].
  - rewrite decide_True by (by apply elem_of_distinct). simpl.
    apply dict_set_tabulate_old; [apply NoDup_distinct|done..].
  - rewrite decide_False by (by rewrite <-elem_of_distinct). simpl.
    rewrite (tabulate_ext _ g).
    + apply dict_set_tabulate_new; [done|]. rewrite Hgx.
      rewrite (filter_none (fun p => document_id p = document_id x)); [done|].
      apply Forall_forall. intros p Hp Heq. apply Hin, elem_of_distinct.
      rewrite <-Heq. by apply list_elem_of_fmap_2.
    + intros d Hd. symmetry. apply Hg. by intros ->.
Qed.

Lemma Qlt_bool_spec a b : Qlt_bool a b = true <-> (a < b)%Q.
Proof.
  unfold Qlt_bool. rewrite negb_true_iff, <-not_true_iff_false, Qle_bool_iff.
  split; [apply Qnot_le_lt|apply Qlt_not_le].
Qed.

Lemma pair_time_counted_delta cur next :
  pair_time cur next = counted_delta cur next.
Proof.
  unfold pair_time, counted_delta. cbv zeta.
  change (seconds MAX_SESSION_GAP_SECONDS) with SESSION_GAP_CAP.
  destruct (Qlt_bool (percentage cur) (percentage next)) eqn:Hq.
  - apply Qlt_bool_spec in Hq.
    case_decide as Hd; cmp_cases; tauto.
  - assert (~ (percentage cur < percentage next)%Q) as Hn.
    { rewrite <-Qlt_bool_spec. congruence. }
    rewrite decide_False by tauto. by destruct (_ && _).
Qed.

Lemma consecutive_time_sum_consecutive l :
  consecutive_time l = sum_consecutive l.
Proof.
  induction l as [|a [|b l] IH]; [done..|].
  change (pair_time a b + consecutive_time (b :: l)
          = counted_delta a b + sum_consecutive (b :: l)).
  by rewrite IH, pair_time_counted_delta.
Qed.

Lemma sum_consecutive_short l : (length l < 2)%nat -> sum_consecutive l = 0.
Proof. destruct l as [|a [|b l]]; simpl; [done..|lia]. Qed.

Lemma fold_left_doc_time (by_doc : dict UUID (list Progress)) (total : Z) :
  fold_left doc_time by_doc total
  = total + sum_Z (map (fun item =>
                          sum_consecutive (stable_sort ts_asc (snd item)))
                       by_doc).
Proof.
  revert total. induction by_doc as [|[d g] G IH]; intros total; simpl.
  - unfold sum_Z. simpl. lia.
  - rewrite IH. unfold doc_time, sum_Z. simpl.
    destruct (Nat.ltb_spec (length g) 2).
    + rewrite (sum_consecutive_short (stable_sort ts_asc g))
        by (by rewrite length_stable_sort). lia.
    + rewrite consecutive_time_sum_consecutive. lia.
Qed.

Lemma sum_Z_perm l1 l2 : l1 ≡ₚ l2 -> sum_Z l1 = sum_Z l2.
Proof. unfold sum_Z. induction 1; simpl; lia. Qed.

Lemma sum_Z_zero {A} (f : A -> Z) l :
  (forall x, x ∈ l -> f x = 0) -> sum_Z (map f l) = 0.
Proof.
  unfold sum_Z. induction l as [|x l IH]; intros Hf; simpl; [done|].
  rewrite Hf by left. rewrite IH; [done|]. intros y Hy. apply Hf. by right.
Qed.

(** The estimate computed by the code is the estimate of the
    specification, taken over the entries [get_all_progress_for_user]
    returns. *)
Lemma get_total_reading_time_estimate_spec st u :
  get_total_reading_time_estimate st u
  = reading_time_spec (get_all_progress_for_user st u).
Proof.
  unfold get_total_reading_time_estimate, reading_time_spec, documents_of.
  set (F := get_all_progress_for_user st u).
  destruct (Nat.ltb_spec (length F) 2) as [Hshort|Hlong].
  - symmetry. apply sum_Z_zero. intros d _. apply sum_consecutive_short.
    unfold samples_of. rewrite length_stable_sort.
    eapply Nat.le_lt_trans; [apply length_filter|done].
  - rewrite group_by_document, fold_left_doc_time. unfold tabulate.
    rewrite map_map. simpl. rewrite Z.add_0_l.
    rewrite (map_ext _ (fun d => sum_consecutive (samples_of F d))).
    + apply sum_Z_perm, Permutation_map. apply NoDup_Permutation.
      * apply NoDup_distinct.
      * apply NoDup_remove_dups.
      * intros d. rewrite elem_of_distinct, elem_of_remove_dups.
        by rewrite (stable_sort_perm ts_asc F).
    + intros d. unfold samples_of.
      rewrite (filter_stable_sort ts_asc ts_asc_total ts_asc_trans).
      rewrite (stable_sort_idemp ts_asc ts_asc_total ts_asc_trans).
      done.
Qed.

Lemma StronglySorted_weaken {A} (R1 R2 : relation A) l :
  (forall x y, R1 x y -> R2 x y) -> StronglySorted R1 l -> StronglySorted R2 l.
Proof.
  intros HR. induction 1 as [|x l Hl IH Hx]; constructor; [done|].
  eapply Forall_impl; [exact Hx|]. simpl. auto.
Qed.

Lemma samples_of_sorted entries d :
  StronglySorted (fun a b => timestamp a <= timestamp b) (samples_of entries d).
Proof.
  eapply (StronglySorted_weaken (fun a b => ts_asc a b = true)).
  - intros a b. unfold ts_asc. apply Z.leb_le.
  - apply stable_sort_ssorted; [apply ts_asc_total|apply ts_asc_trans].
Qed.

Lemma samples_of_user_entries st u d :
  samples_of (get_all_progress_for_user st u) d
  ≡ₚ filter (fun p => document_id p = d /\ user_id p = u) st.
Proof.
  unfold samples_of, get_all_progress_for_user.
  by rewrite stable_sort_perm, stable_sort_perm, list_filter_filter.
Qed.

(** C6.  The estimate is the sum, over the documents of the user, of the
    time deltas between consecutive samples of the document in ascending
    order of timestamp, a delta being counted only when it is strictly
    positive, strictly below two hours, and the percentage strictly
    increased.  The samples of a document are exactly the user's stored
    entries of that document; a document with fewer than two samples
    contributes zero, and with fewer than two entries in total the estimate
    is zero.  With samples at 1000 s (10%) and 2000 s (30%) the estimate is
    1000 s, and a further sample 7300 s later (35%) adds nothing. *)
Theorem C6_reading_time_estimate (st : Store) (u : option UUID) :
  let entries := get_all_progress_for_user st u in
  get_total_reading_time_estimate st u = reading_time_spec entries
  /\ (forall d,
        samples_of entries d
        ≡ₚ filter (fun p => document_id p = d /\ user_id p = u) st
        /\ StronglySorted (fun a b => timestamp a <= timestamp b)
                          (samples_of entries d))
  /\ (forall d, (length (samples_of entries d) < 2)%nat ->
                sum_consecutive (samples_of entries d) = 0)
  /\ ((length entries < 2)%nat -> get_total_reading_time_estimate st u = 0)
  /\ get_total_reading_time_estimate
       [sample doc_A dev_D1 (10 # 100) 1000; sample doc_A dev_D2 (30 # 100) 2000]
       (Some user_1) = seconds 1000
  /\ get_total_reading_time_estimate
       [sample doc_A dev_D1 (10 # 100) 1000; sample doc_A dev_D2 (30 # 100) 2000;
        sample doc_A dev_D3 (35 # 100) (2000 + 7300)]
       (Some user_1) = seconds 1000.
Proof.
  intros entries. split; [apply get_total_reading_time_estimate_spec|].
  split; [|split; [|split; [|split; reflexivity]]].
  - intros d. split; [apply samples_of_user_entries|apply samples_of_sorted].
  - intros d. apply sum_consecutive_short.
  - intros Hshort. unfold get_total_reading_time_estimate. fold entries.
    apply Nat.ltb_lt in Hshort. by rewrite Hshort.
Qed.

(** Through [save_progress] two samples from one device do not both stay
    stored: the second replaces the first, and the estimate is zero. *)
Remark reading_time_same_device_replaced :
  get_total_reading_time_estimate
    (save_all [] [sample doc_A dev_D1 (10 # 100) 1000;
                  sample doc_A dev_D1 (30 # 100) 2000])
    (Some user_1) = 0.
Proof. reflexivity. Qed.

(** ** Dictionaries as functions of their keys *)

Lemma omap_ext_elem {A B} (f g : A -> option B) (l : list A) :
  (forall x, x ∈ l -> f x = g x) -> omap f l = omap g l.
Proof.
  induction l as [|x l IH]; intros Hfg; [done|]. csimpl.
  rewrite (Hfg x) by left. rewrite IH; [done|].
  intros y Hy. apply Hfg. by right.
Qed.

Section dict_lookup_facts.
Context {K : Type} `{EqDecision K} {V : Type}.
Implicit Types (d : dict K V) (k : K) (v : V).

Lemma dict_get_None d k : dict_get d k = None <-> k ∉ dict_keys d.
Proof.
  unfold dict_keys. induction d as [|[k' v'] d IH]; simpl.
  - split; [intros _; apply not_elem_of_nil|done].
  - rewrite not_elem_of_cons. destruct (decide (k' = k)) as [->|Hne].
    + split; [done|]. by intros [? _].
    + rewrite IH. split; [by intros ?; split|by intros [_ ?]].
Qed.

Lemma dict_keys_set d k v :
  dict_keys (dict_set d k v)
  = if decide (k ∈ dict_keys d) then dict_keys d else dict_keys d ++ [k].
Proof.
  unfold dict_keys. induction d as [|[k' v'] d IH]; simpl.
  - done.
  - destruct (decide (k' = k)) as [->|Hne]; simpl.
    + by rewrite decide_True by left.
    + rewrite IH. destruct (decide (k ∈ map fst d)).
      * by rewrite decide_True by (by right).
      * by rewrite decide_False by (by intros [->|?]%elem_of_cons).
Qed.

Lemma dict_get_set d k v k' :
  dict_get (dict_set d k v) k' = if decide (k = k') then Some v else dict_get d k'.
Proof.
  induction d as [|[k0 v0] d IH]; simpl.
  - by destruct (decide (k = k')).
  - destruct (decide (k0 = k)) as [->|Hne]; simpl.
    + by destruct (decide (k = k')).
    + rewrite IH. destruct (decide (k0 = k')) as [->|?]; [|done].
      by rewrite decide_False by done.
Qed.

(** A dictionary is determined by its keys and its lookups. *)
Lemma dict_rebuild d :
  NoDup (dict_keys d) ->
  d = omap (fun k => pair k <$> dict_get d k) (dict_keys d).
Proof.
  unfold dict_keys. induction d as [|[k v] d IH]; simpl; [done|].
  intros [Hk Hnd]%NoDup_cons. rewrite decide_True by done. simpl.
  f_equal. rewrite IH at 1 by done. apply omap_ext_elem.
  intros k' Hk'. rewrite decide_False; [done|]. by intros ->.
Qed.

Lemma elem_of_dict d k v :
  NoDup (dict_keys d) -> (k, v) ∈ d <-> dict_get d k = Some v.
Proof.
  unfold dict_keys. induction d as [|[k' v'] d IH]; simpl; intros Hnd.
  - split; [by intros ?%elem_of_nil|done].
  - apply NoDup_cons in Hnd as [Hk Hnd]. rewrite elem_of_cons, IH by done.
    destruct (decide (k' = k)) as [->|Hne].
    + split; [intros [?|Hget]; [by simplify_eq|]|intros ?; left; by simplify_eq].
      exfalso. apply Hk. apply dec_stable. intros Hnot.
      apply dict_get_None in Hnot. congruence.
    + split; [intros [?|?]; [by simplify_eq|done]|by right].
Qed.
End dict_lookup_facts.

(** ** Representative entries *)

Lemma latest_of_snoc l x :
  latest_of (l ++ [x])
  = match latest_of l with
    | None => Some x
    | Some q => if timestamp q <? timestamp x then Some x else Some q
    end.
Proof.
  rewrite latest_of_app, latest_of_cons. simpl.
  destruct (latest_of l) as [q|]; simpl; [|done]. cmp_cases.
Qed.

Lemma representative_snoc l x d :
  representative (l ++ [x]) d
  = if decide (document_id x = d)
    then match representative l d with
         | None => Some x
         | Some q => if timestamp q <? timestamp x then Some x else Some q
         end
    else representative l d.
Proof.
  unfold representative. rewrite filter_app, filter_cons, filter_nil.
  destruct (decide (document_id x = d)).
  - apply latest_of_snoc.
  - by rewrite app_nil_r.
Qed.

(** The dictionary [latest_progress_per_book] has the documents as keys, in
    order of first occurrence, and holds each document's representative. *)
Lemma latest_progress_per_book_inv (l : list Progress) :
  dict_keys (latest_progress_per_book l) = distinct (map document_id l)
  /\ forall d, dict_get (latest_progress_per_book l) d = representative l d.
Proof.
  unfold latest_progress_per_book.
  induction l as [|x l [IHk IHg]] using rev_ind; [done|].
  rewrite fold_left_app. simpl. set (D := fold_left latest_step l []) in *.
  rewrite map_app. simpl. rewrite distinct_snoc.
  assert (document_id x ∈ map document_id l
          <-> dict_get D (document_id x) <> None) as Hin.
  { rewrite <-elem_of_distinct, <-IHk, dict_get_None.
    split; [tauto|apply dec_stable]. }
  assert (dict_keys (dict_set D (document_id x) x)
          = if decide (document_id x ∈ map document_id l)
            then distinct (map document_id l)
            else distinct (map document_id l) ++ [document_id x]) as Hkeys.
  { rewrite dict_keys_set, IHk.
    destruct (decide (document_id x ∈ map document_id l)) as [Hx|Hx].
    - by rewrite decide_True by (by apply elem_of_distinct).
    - by rewrite decide_False by (by rewrite elem_of_distinct). }
  unfold latest_step. pose proof (IHg (document_id x)) as Hx.
  destruct (dict_get D (document_id x)) as [q|] eqn:Hq.
  - rewrite decide_True in Hkeys |- * by (by apply Hin).
    destruct (Z.ltb_spec (timestamp q) (timestamp x)) as [Hlt|Hge].
    + split; [done|]. intros d. rewrite dict_get_set, representative_snoc.
      destruct (decide (document_id x = d)) as [<-|?]; [|apply IHg].
      rewrite <-Hx. by apply Z.ltb_lt in Hlt as ->.
    + split; [done|]. intros d. rewrite representative_snoc.
      destruct (decide (document_id x = d)) as [<-|?]; [|apply IHg].
      rewrite <-Hx, Hq. by apply Z.ltb_ge in Hge as ->.
  - rewrite decide_False in Hkeys |- * by (rewrite Hin; tauto).
    split; [done|]. intros d. rewrite dict_get_set, representative_snoc.
    destruct (decide (document_id x = d)) as [<-|?]; [|apply IHg].
    by rewrite <-Hx.
Qed.

Lemma latest_progress_per_book_spec (l : list Progress) :
  latest_progress_per_book l = representatives l.
Proof.
  destruct (latest_progress_per_book_inv l) as [Hk Hg].
  rewrite (dict_rebuild (latest_progress_per_book l))
    by (rewrite Hk; apply NoDup_distinct).
  rewrite Hk. unfold representatives. apply omap_ext_elem.
  intros d _. by rewrite Hg.
Qed.

Lemma elem_of_representatives entries d p :
  (d, p) ∈ representatives entries <-> representative entries d = Some p.
Proof.
  unfold representatives. rewrite list_elem_of_omap. split.
  - intros (d' & _ & Hd'). destruct (representative entries d') eqn:Hr;
      simpl in Hd'; by simplify_eq.
  - intros Hr. exists d. rewrite Hr. split; [|done].
    apply elem_of_distinct. apply latest_of_elem in Hr.
    apply list_elem_of_filter in Hr as [<- Hp]. by apply list_elem_of_fmap_2.
Qed.

Lemma representative_spec entries d p :
  representative entries d = Some p ->
  p ∈ entries /\ document_id p = d
  /\ forall e, e ∈ entries -> document_id e = d -> timestamp e <= timestamp p.
Proof.
  intros Hr. unfold representative in Hr.
  pose proof (latest_of_filter_spec (fun q => document_id q = d) entries) as H.
  rewrite Hr in H. tauto.
Qed.

Lemma pct_desc_total a b : pct_desc a b = true \/ pct_desc b a = true.
Proof.
  unfold pct_desc. rewrite !Qle_bool_iff.
  destruct (Qlt_le_dec (percentage (snd a)) (percentage (snd b))) as [H|H];
    [right; by apply Qlt_le_weak|by left].
Qed.

Lemma pct_desc_trans a b c :
  pct_desc a b = true -> pct_desc b c = true -> pct_desc a c = true.
Proof.
  unfold pct_desc. rewrite !Qle_bool_iff. intros H1 H2.
  eapply Qle_trans; eauto.
Qed.

(** ** The most-read books *)

Section most_read_facts.
Context {R : Type} `{!BookRepository R}.

Lemma slice_to_take {A} (limit : Z) (l : list A) :
  0 <= limit -> slice_to limit l = take (Z.to_nat limit) l.
Proof. intros Hl. unfold slice_to. by apply Z.leb_le in Hl as ->. Qed.

Lemma get_most_read_books_spec (book_repository : R) st u (limit : Z) :
  0 <= limit ->
  get_most_read_books book_repository st u limit
  = most_read_spec book_repository (get_all_progress_for_user st u)
                   (Z.to_nat limit).
Proof.
  intros Hl. unfold get_most_read_books, most_read_spec.
  destruct (get_all_progress_for_user st u) as [|x F] eqn:HF.
  - by destruct (Z.to_nat limit).
  - rewrite latest_progress_per_book_spec, slice_to_take by done.
    apply omap_ext_elem. intros item _. unfold most_read_step.
    by destruct (get_book_by_id book_repository item.1).
Qed.

Lemma length_omap_le {A B} (f : A -> option B) (l : list A) :
  (length (omap f l) <= length l)%nat.
Proof.
  induction l as [|x l IH]; csimpl; [done|]. destruct (f x); simpl; lia.
Qed.

(** C7.  For a non-negative [limit], [get_most_read_books] takes the
    representative entry of each document of the user (an entry of the
    document of maximal timestamp over all the user's devices, one per
    document), sorts them by descending percentage, keeps the first [limit],
    and resolves each to its book through the repository, skipping those
    the repository does not know.  With representative percentages 0.9,
    0.4 and 0.99 and [limit = 2] it returns the 0.99 document, then the 0.9
    document. *)
Theorem C7_most_read_books
    (book_repository : R) (st : Store) (u : option UUID) (limit : Z) :
  0 <= limit ->
  let entries := get_all_progress_for_user st u in
  let ranked := stable_sort pct_desc (representatives entries) in
  get_most_read_books book_repository st u limit
  = most_read_spec book_repository entries (Z.to_nat limit)
  /\ dict_keys (representatives entries) = distinct (map document_id entries)
  /\ (forall d p, (d, p) ∈ representatives entries ->
        document_id p = d /\ user_id p = u /\ p ∈ st
        /\ forall e, e ∈ st -> user_id e = u -> document_id e = d ->
                     timestamp e <= timestamp p)
  /\ ranked ≡ₚ representatives entries
  /\ StronglySorted
       (fun a b => (percentage (snd b) <= percentage (snd a))%Q) ranked
  /\ (length (get_most_read_books book_repository st u limit)
      <= Z.to_nat limit)%nat
  /\ get_most_read_books sample_books sample_history (Some user_1) 2
     = [(sample_book doc_C "C", 99 # 100); (sample_book doc_A "A", 90 # 100)]
  /\ get_most_read_books (delete doc_C sample_books) sample_history
                         (Some user_1) 2
     = [(sample_book doc_A "A", 90 # 100)].
Proof.
  intros Hl entries ranked.
  assert (forall p, p ∈ entries <-> user_id p = u /\ p ∈ st) as Hentries.
  { intros p. unfold entries, get_all_progress_for_user.
    by rewrite elem_of_stable_sort, list_elem_of_filter. }
  split; [by apply get_most_read_books_spec|].
  split.
  { rewrite <-latest_progress_per_book_spec.
    apply latest_progress_per_book_inv. }
  split.
  { intros d p [Hp [Hd Hmax]]%elem_of_representatives%representative_spec.
    apply Hentries in Hp as [Hu Hp]. repeat split; [done..|].
    intros e He Heu Hed. apply Hmax; [|done]. by apply Hentries. }
  split; [apply stable_sort_perm|].
  split.
  { eapply (StronglySorted_weaken (fun a b => pct_desc a b = true)).
    - intros a b. unfold pct_desc. apply Qle_bool_iff.
    - apply stable_sort_ssorted; [apply pct_desc_total|apply pct_desc_trans]. }
  split; [|split; vm_compute; reflexivity].
  rewrite get_most_read_books_spec by done. unfold most_read_spec.
  etrans; [apply length_omap_le|]. rewrite length_take. lia.
Qed.
End most_read_facts.

Lemma C7_most_read_books_witness :
  get_most_read_books sample_books sample_history (Some user_1) 2
  = most_read_spec sample_books
      (get_all_progress_for_user sample_history (Some user_1)) 2.
Proof.
  apply (C7_most_read_books sample_books sample_history (Some user_1) 2).
  lia.
Defined.

(** With a negative [limit] the slice [[:limit]] drops entries from the end
    instead. *)
Remark most_read_negative_limit :
  get_most_read_books sample_books sample_history (Some user_1) (-1)
  = [(sample_book doc_C "C", 99 # 100); (sample_book doc_A "A", 90 # 100)].
Proof. vm_compute. reflexivity. Qed.

(** ** Reading activity over time *)

Lemma period_key_of_fallback period p :
  period <> "month" -> period <> "year" ->
  period_key_of period p = strftime_Y_m_d (timestamp p).
Proof.
  intros Hm Hy. unfold period_key_of.
  apply String.eqb_neq in Hm, Hy. by rewrite Hm, Hy.
Qed.

Lemma activity_step_fallback period activity item :
  period <> "month" -> period <> "year" ->
  activity_step period activity item = activity_step "day" activity item.
Proof.
  intros Hm Hy. unfold activity_step.
  by rewrite !period_key_of_fallback by done.
Qed.

Lemma fold_left_ext_all {A B} (f g : A -> B -> A) l a :
  (forall a b, f a b = g a b) -> fold_left f l a = fold_left g l a.
Proof.
  intros Hfg. revert a. induction l as [|x l IH]; intros a; simpl; [done|].
  by rewrite Hfg, IH.
Qed.

Lemma Qplus_inject_Z_1 (n : Z) : (inject_Z n + 1)%Q = inject_Z (n + 1).
Proof.
  unfold Qplus, inject_Z. simpl. f_equal. lia.
Qed.

Lemma finished_spec item :
  Qle_bool (95 # 100) (percentage (snd item)) = true <-> finished item.
Proof. apply Qle_bool_iff. Qed.

(** Every bucket holds the number of finished documents of its period. *)
Lemma activity_fold_inv period (items : list (UUID * Progress)) :
  NoDup (dict_keys (fold_left (activity_step period) items []))
  /\ forall k,
       dict_get (fold_left (activity_step period) items []) k
       = count_value (bucket_count (period_key_of period) items k).
Proof.
  induction items as [|x items [IHn IHg]] using rev_ind.
  - split; [constructor|done].
  - rewrite fold_left_app. simpl.
    set (A := fold_left (activity_step period) items []) in *.
    assert (forall k, bucket_count (period_key_of period) (items ++ [x]) k
              = if decide (finished x /\ period_key_of period (snd x) = k)
                then S (bucket_count (period_key_of period) items k)
                else bucket_count (period_key_of period) items k) as Hcount.
    { intros k. unfold bucket_count.
      rewrite filter_app, filter_cons, filter_nil, length_app.
      destruct (decide _); simpl; lia. }
    unfold activity_step.
    destruct (Qle_bool (95 # 100) (percentage (snd x))) eqn:Hfin.
    + apply finished_spec in Hfin. unfold activity_incr. split.
      * rewrite dict_keys_set. destruct (decide _); [done|].
        apply NoDup_app. split; [done|]. split; [|apply NoDup_singleton].
        intros k Hk ->%list_elem_of_singleton. done.
      * intros k. rewrite dict_get_set, Hcount.
        destruct (decide (period_key_of period (snd x) = k)) as [<-|Hne].
        -- rewrite decide_True by done. rewrite IHg.
           destruct (bucket_count _ items _) as [|n]; [done|].
           simpl count_value. simpl default. rewrite Qplus_inject_Z_1.
           do 2 f_equal. lia.
        -- rewrite decide_False by tauto. apply IHg.
    + assert (~ finished x) as Hnot.
      { rewrite <-finished_spec. congruence. }
      split; [done|]. intros k. rewrite Hcount.
      rewrite decide_False by tauto. apply IHg.
Qed.

Lemma elem_of_activity st u period k v :
  (k, v) ∈ get_reading_activity_over_time st u period
  <-> count_value (bucket_count (period_key_of period)
                     (representatives (get_all_progress_for_user st u)) k)
      = Some v.
Proof.
  unfold get_reading_activity_over_time.
  destruct (activity_fold_inv period
              (representatives (get_all_progress_for_user st u))) as [Hn Hg].
  rewrite <-Hg, <-elem_of_dict by done.
  rewrite <-latest_progress_per_book_spec.
  destruct (get_all_progress_for_user st u) as [|x F]; [done|].
  by rewrite elem_of_stable_sort.
Qed.

Lemma strftime_Y_m_d_shape t :
  1000 <= year_of t ->
  String.length (strftime_Y_m_d t) = 10%nat
  /\ String.get 4 (strftime_Y_m_d t) = Some "-"%char
  /\ String.get 7 (strftime_Y_m_d t) = Some "-"%char.
Proof.
  unfold strftime_Y_m_d, year_of, decimal_year.
  destruct (date_of t) as [[y m] d]. simpl. intros Hy.
  destruct (Z.ltb_spec y 10); [lia|]. destruct (Z.ltb_spec y 100); [lia|].
  destruct (Z.ltb_spec y 1000); [lia|]. done.
Qed.

Lemma bucket_count_ext (f g : Progress -> string) items k :
  (forall p, f p = g p) -> bucket_count f items k = bucket_count g items k.
Proof.
  intros Hfg. unfold bucket_count. f_equal. apply list_filter_iff.
  intros item. by rewrite Hfg.
Qed.

Lemma count_value_Some n v : count_value n = Some v -> (0 < n)%nat.
Proof. destruct n; [done|]. lia. Qed.

(** C10.  A period other than the exact strings "month" and "year" is not
    rejected: the result is the one for "day".  Its buckets are the days on
    which the representative entry of a finished document falls, finished
    meaning a percentage of at least 0.95, and each bucket holds the number
    of those documents; the key of a day is its [%Y-%m-%d] rendering, of
    the form YYYY-MM-DD for the years from 1000 on. *)
Theorem C10_unrecognised_period_is_day
    (st : Store) (u : option UUID) (period : string) :
  period <> "month" -> period <> "year" ->
  let entries := get_all_progress_for_user st u in
  let result := get_reading_activity_over_time st u period in
  result = get_reading_activity_over_time st u "day"
  /\ (forall k v,
        (k, v) ∈ result <-> count_value (day_count entries k) = Some v)
  /\ (forall k v, (k, v) ∈ result ->
        exists d p,
          (d, p) ∈ representatives entries
          /\ (95 # 100 <= percentage p)%Q
          /\ k = strftime_Y_m_d (timestamp p)
          /\ (1000 <= year_of (timestamp p) <= 9999 ->
              String.length k = 10%nat
              /\ String.get 4 k = Some "-"%char
              /\ String.get 7 k = Some "-"%char)).
Proof.
  intros Hm Hy entries result.
  assert (forall k v,
    (k, v) ∈ result <-> count_value (day_count entries k) = Some v) as Hres.
  { intros k v. unfold result. rewrite elem_of_activity. unfold day_count.
    rewrite (bucket_count_ext (period_key_of period)
               (fun p => strftime_Y_m_d (timestamp p))); [done|].
    intros p. by apply period_key_of_fallback. }
  split; [|split; [exact Hres|]].
  - unfold result, get_reading_activity_over_time.
    destruct (get_all_progress_for_user st u); [done|]. f_equal.
    apply fold_left_ext_all. intros a b. by apply activity_step_fallback.
  - intros k v Hkv%Hres%count_value_Some.
    unfold day_count, bucket_count in Hkv.
    destruct (filter _ (representatives entries)) as [|[d p] l] eqn:Hf;
      [simpl in Hkv; lia|].
    assert ((d, p) ∈ filter
              (fun item => finished item
                           /\ strftime_Y_m_d (timestamp (snd item)) = k)
              (representatives entries)) as Hin by (rewrite Hf; left).
    apply list_elem_of_filter in Hin as [[Hfin <-] Hin].
    exists d, p. split; [done|]. split; [done|]. split; [done|].
    intros [Hyear _]. by apply strftime_Y_m_d_shape.
Qed.

Lemma C10_unrecognised_period_witness :
  get_reading_activity_over_time sample_finished (Some user_1) "week"
  = get_reading_activity_over_time sample_finished (Some user_1) "day"
  /\ get_reading_activity_over_time sample_finished (Some user_1) ""
     = get_reading_activity_over_time sample_finished (Some user_1) "day".
Proof.
  split.
  - apply (C10_unrecognised_period_is_day sample_finished (Some user_1) "week");
      discriminate.
  - apply (C10_unrecognised_period_is_day sample_finished (Some user_1) "");
      discriminate.
Defined.

Example activity_week_example :
  get_reading_activity_over_time sample_finished (Some user_1) "week"
  = [("2023-11-14"%string, 2%Q)]
  /\ get_reading_activity_over_time sample_finished (Some user_1) "month"
     = [("2023-11"%string, 2%Q)]
  /\ get_reading_activity_over_time sample_finished (Some user_1) "year"
     = [("2023"%string, 2%Q)].
Proof. vm_compute. repeat split. Qed.

(** The year is not padded: a document finished on the last day of the
    year 999 falls into the bucket "999-12-31", and one finished in the
    year 1 into "1-01-01". *)
Remark activity_key_below_year_1000 :
  get_reading_activity_over_time
    [sample doc_A dev_D1 (100 # 100) (-30610310400)] (Some user_1) "day"
  = [("999-12-31"%string, 1%Q)]
  /\ get_reading_activity_over_time
       [sample doc_A dev_D1 (100 # 100) MIN_UNIX_TIME] (Some user_1) "week"
     = [("1-01-01"%string, 1%Q)]
  /\ year_of (seconds (-30610310400)) = 999.
Proof. vm_compute. repeat split. Qed.

(** * Further properties of the modelled code *)

(** ** The progress store under sequences of saves *)

(** X1.  After any sequence of [save_progress] calls on any store, the
    lookup of a (document, device) key returns the newest of the entry it
    returned before and the entries saved under that key, a later save
    winning among equal timestamps; saves under other keys do not count. *)
Theorem X1_save_all_lookup
    (st : Store) (ps : list Progress) (d : UUID) (v : option UUID) :
  get_progress_for_document_and_device (save_all st ps) d v
  = fold_left newest
      (filter (fun p => document_id p = d /\ device_id p = v) ps)
      (get_progress_for_document_and_device st d v).
Proof.
  unfold save_all. induction ps as [|p ps IH] using rev_ind; [done|].
  rewrite fold_left_app, filter_app, filter_cons, filter_nil. simpl.
  set (st' := fold_left (fun s q => fst (save_progress s q)) ps st) in *.
  destruct (decide (document_id p = d /\ device_id p = v)) as [[<- <-]|Hne].
  - rewrite fold_left_app. simpl.
    by rewrite get_progress_for_document_and_device_save, IH.
  - rewrite app_nil_r, get_progress_for_document_and_device_save_other; [done|].
    intros [= ? ?]. tauto.
Qed.

(** Where [save_progress] puts the entry: at the end when nothing is
    superseded, else in the place of the first superseded entry. *)
Lemma save_progress_cases st p :
  (Forall (fun e => superseded p e = false) st
   /\ fst (save_progress st p) = st ++ [p])
  \/ (exists s1 e s2,
        st = s1 ++ e :: s2
        /\ Forall (fun x => superseded p x = false) s1
        /\ superseded p e = true
        /\ fst (save_progress st p)
           = s1 ++ p :: filter (fun x => superseded p x = false) s2).
Proof.
  assert (Forall (fun e => superseded p e = false) st
          \/ exists s1 e s2, st = s1 ++ e :: s2
               /\ Forall (fun x => superseded p x = false) s1
               /\ superseded p e = true) as [Hall|(s1 & e & s2 & -> & H1 & He)].
  { induction st as [|x st IH]; [by left|].
    destruct (superseded p x) eqn:Hx.
    - right. by exists [], x, st.
    - destruct IH as [Hall|(s1 & e & s2 & -> & H1 & He)].
      + left. by constructor.
      + right. exists (x :: s1), e, s2. split; [done|]. split; [|done].
        by constructor. }
  - left. split; [done|]. by apply save_progress_append.
  - right. exists s1, e, s2. split; [done|]. split; [done|]. split; [done|].
    unfold save_progress. rewrite save_loop_prefix by done.
    by rewrite save_loop_cons, He, save_loop_updated.
Qed.

(** Entries of other keys are untouched, in content and in order. *)
Lemma filter_save_progress_other (P : Progress -> Prop)
    `{!forall x, Decision (P x)} st p :
  (forall e, P e -> same_key e p = false) ->
  filter P (fst (save_progress st p)) = filter P st.
Proof.
  intros HP. destruct (save_progress_shape st p) as (l1 & l2 & -> & Hf).
  rewrite filter_app, filter_cons_False, <-filter_app, Hf.
  - apply filter_filter_weaker. intros e _ He. unfold superseded.
    by rewrite (HP e He).
  - intros Hp. apply HP in Hp. by rewrite same_key_refl in Hp.
Qed.

(** Saving keeps the entries of every key in strictly descending order of
    timestamp. *)
Lemma save_progress_descending st p d v :
  StronglySorted (fun a b => timestamp b < timestamp a)
    (filter (fun e => document_id e = d /\ device_id e = v) st) ->
  StronglySorted (fun a b => timestamp b < timestamp a)
    (filter (fun e => document_id e = d /\ device_id e = v)
            (fst (save_progress st p))).
Proof.
  set (P := fun e => document_id e = d /\ device_id e = v). intros Hsorted.
  destruct (decide (P p)) as [Hp|Hp].
  2:{ rewrite (filter_save_progress_other P); [done|].
      intros e [He1 He2]. apply not_true_is_false. rewrite same_key_spec.
      intros [??]. apply Hp. split; congruence. }
  assert (forall e, P e -> superseded p e = false -> timestamp p < timestamp e)
    as Hnewer.
  { intros e [He1 He2] Hs. destruct Hp as [Hp1 Hp2]. unfold superseded in Hs.
    assert (same_key e p = true) as Hk by (apply same_key_spec; split; congruence).
    rewrite Hk in Hs. simpl in Hs. by apply Z.leb_gt in Hs. }
  destruct (save_progress_cases st p)
    as [[Hall ->]|(s1 & e & s2 & -> & H1 & He & ->)].
  - rewrite filter_app, filter_cons_True, filter_nil by done.
    apply StronglySorted_app. split; [|split; [done|repeat constructor]].
    intros x y [Hx Hin]%list_elem_of_filter ->%list_elem_of_singleton.
    rewrite Forall_forall in Hall. by apply Hnewer, Hall.
  - assert (P e) as HPe.
    { unfold superseded in He. apply andb_true_iff in He as [Hk _].
      apply same_key_spec in Hk as [??]. destruct Hp. split; congruence. }
    rewrite filter_app, filter_cons_True in Hsorted by done.
    apply StronglySorted_app in Hsorted as (Hcross & Hs1 & Hs2).
    apply StronglySorted_cons in Hs2 as [He2 _].
    rewrite filter_app, filter_cons_True by done.
    assert (filter P (filter (fun x => superseded p x = false) s2) = []) as ->.
    { apply (filter_none P). apply Forall_forall.
      intros x [Hx Hin]%list_elem_of_filter HPx.
      rewrite Forall_forall in He2.
      assert (timestamp x < timestamp e)
        by (apply He2; by apply list_elem_of_filter).
      pose proof (Hnewer x HPx Hx). unfold superseded in He.
      apply andb_true_iff in He as [_ Hle]. apply Z.leb_le in Hle. lia. }
    apply StronglySorted_app. split; [|split; [done|repeat constructor]].
    intros x y [Hx Hin]%list_elem_of_filter ->%list_elem_of_singleton.
    rewrite Forall_forall in H1. by apply Hnewer, H1.
Qed.

(** X2.  In a store built from the empty store by [save_progress], the
    entries kept under one (document, device) key are in strictly
    descending order of timestamp: the first one is the newest, and no two
    have the same timestamp. *)
Theorem X2_entries_of_a_key_descend
    (ps : list Progress) (d : UUID) (v : option UUID) :
  StronglySorted (fun a b => timestamp b < timestamp a)
    (filter (fun e => document_id e = d /\ device_id e = v) (save_all [] ps)).
Proof.
  unfold save_all. induction ps as [|p ps IH] using rev_ind; [constructor|].
  rewrite fold_left_app. simpl. by apply save_progress_descending.
Qed.

(** X3.  The store after [save_progress st p] holds [p] and exactly those
    old entries that [p] does not supersede: every old entry with [p]'s
    (document, device) key and a timestamp not newer than [p]'s is gone,
    whoever its user is; the store grows by at most one entry. *)
Theorem X3_store_after_save (st : Store) (p x : Progress) :
  (x ∈ fst (save_progress st p)
   <-> x = p \/ (x ∈ st /\ superseded p x = false))
  /\ (length (fst (save_progress st p)) <= S (length st))%nat.
Proof.
  destruct (save_progress_shape st p) as (l1 & l2 & -> & Hf).
  assert (forall y, y ∈ l1 \/ y ∈ l2 <-> superseded p y = false /\ y ∈ st) as Hl.
  { intros y. by rewrite <-elem_of_app, Hf, list_elem_of_filter. }
  split.
  - rewrite elem_of_app, elem_of_cons. specialize (Hl x). tauto.
  - assert (length (l1 ++ l2) <= length st)%nat.
    { rewrite Hf. apply length_filter. }
    rewrite !length_app in *. simpl. lia.
Qed.

(** X4.  [save_progress] leaves the entries of all other (document,
    device) keys as they are, in content and in order. *)
Theorem X4_other_keys_untouched (st : Store) (p : Progress) :
  filter (fun e => same_key e p = false) (fst (save_progress st p))
  = filter (fun e => same_key e p = false) st.
Proof. by apply (filter_save_progress_other (fun e => same_key e p = false)). Qed.

(** X5.  The user's latest entry for a document is at least as new as the
    entry of any of the user's devices for that document. *)
Theorem X5_latest_dominates_device_entry
    (st : Store) (d : UUID) (v : option UUID) (m : Progress) :
  get_progress_for_document_and_device st d v = Some m ->
  exists m', get_latest_progress st d (user_id m) = Some m'
             /\ timestamp m <= timestamp m'.
Proof.
  rewrite get_progress_for_document_and_device_latest, get_latest_progress_latest.
  intros [[Hd _] Hin]%latest_of_elem%list_elem_of_filter.
  assert (m ∈ filter (fun p => document_id p = d /\ user_id p = user_id m) st)
    as Hm by by apply list_elem_of_filter.
  destruct (latest_of (filter _ st)) as [m'|] eqn:Hl.
  - exists m'. split; [done|]. by eapply latest_of_max.
  - apply latest_of_None in Hl. rewrite Hl in Hm. by inv Hm.
Qed.

Lemma X5_latest_dominates_witness :
  exists m', get_latest_progress
               [sample doc_A dev_D1 (1 # 10) 1000; sample doc_A dev_D2 (3 # 10) 5000]
               doc_A (Some user_1) = Some m'
             /\ seconds 1000 <= timestamp m'.
Proof.
  apply (X5_latest_dominates_device_entry
           [sample doc_A dev_D1 (1 # 10) 1000; sample doc_A dev_D2 (3 # 10) 5000]
           doc_A (Some dev_D1) (sample doc_A dev_D1 (1 # 10) 1000)).
  reflexivity.
Defined.

(** ** Submitting through the service *)

Lemma submit_progress_success st u d pct detail name dev t st' r :
  submit_progress st u d pct detail name dev t = inr (st', r) ->
  MIN_UNIX_TIME <= t <= MAX_UNIX_TIME
  /\ r = {| document_id := d; user_id := u; percentage := pct;
            progress_detail := default EmptyString detail;
            device_name := name; device_id := dev;
            timestamp := seconds t |}
  /\ st' = fst (save_progress st r).
Proof.
  unfold submit_progress, Progress_validate.
  destruct (decide (MIN_UNIX_TIME <= t <= MAX_UNIX_TIME)) as [Hin|Hout].
  - rewrite utcfromtimestamp_in_range by done. intros [= Hsave].
    rewrite (surjective_pairing (save_progress _ _)) in Hsave.
    rewrite save_progress_result in Hsave. by simplify_eq.
  - by rewrite utcfromtimestamp_out_of_range.
Qed.

(** X6.  Of two submissions for the same document and device, made one
    after the other on a store without entry for that key, the device
    lookup returns the one with the later Unix time, and the second one on
    a tie; the users of the two submissions play no part. *)
Theorem X6_later_submission_wins
    (st st1 st2 : Store) (d : UUID) (dev : option UUID)
    (u1 u2 : option UUID) (pct1 pct2 : Q) (detail1 detail2 : option string)
    (name1 name2 : string) (t1 t2 : Z) (r1 r2 : Progress) :
  get_device_specific_progress st d dev = None ->
  submit_progress st u1 d pct1 detail1 name1 dev t1 = inr (st1, r1) ->
  submit_progress st1 u2 d pct2 detail2 name2 dev t2 = inr (st2, r2) ->
  get_device_specific_progress st2 d dev
  = Some (if t1 <=? t2 then r2 else r1).
Proof.
  unfold get_device_specific_progress. intros Hnone H1 H2.
  apply submit_progress_success in H1 as (_ & Hr1 & ->).
  apply submit_progress_success in H2 as (_ & Hr2 & ->).
  assert (document_id r1 = d /\ device_id r1 = dev) as [Hd1 Hv1] by by subst r1.
  assert (document_id r2 = d /\ device_id r2 = dev) as [Hd2 Hv2] by by subst r2.
  pose proof (get_progress_for_document_and_device_save
                (fst (save_progress st r1)) r2) as Hsecond.
  pose proof (get_progress_for_document_and_device_save st r1) as Hfirst.
  rewrite Hd1, Hv1, Hnone in Hfirst. rewrite Hd2, Hv2, Hfirst in Hsecond.
  rewrite Hsecond.
  assert (timestamp r1 = seconds t1) as -> by by subst r1.
  assert (timestamp r2 = seconds t2) as -> by by subst r2.
  unfold seconds. destruct (Z.leb_spec t1 t2), (Z.leb_spec (t1 * 1000000) (t2 * 1000000));
    try done; lia.
Qed.

Lemma X6_later_submission_witness :
  exists st2,
    get_device_specific_progress st2 doc_A (Some dev_D1)
    = Some (sample doc_A dev_D1 (1 # 2) 2000).
Proof.
  eexists.
  refine (X6_later_submission_wins
            [] _ _ doc_A (Some dev_D1) (Some user_1) (Some user_1)
            (1 # 2) (1 # 4) None None "KOReader" "KOReader" 2000 1000
            _ _ eq_refl eq_refl eq_refl).
Defined.

(** ** Books started and finished *)

Lemma NoDup_keys_filter {V} (P : UUID * V -> Prop)
    `{!forall x, Decision (P x)} (d : dict UUID V) :
  NoDup (dict_keys d) -> NoDup (dict_keys (filter P d)).
Proof.
  unfold dict_keys. induction d as [|[k v] d IH]; simpl; [done|].
  intros [Hk Hd]%NoDup_cons. rewrite filter_cons.
  destruct (decide (P (k, v))); [|by apply IH]. simpl.
  apply NoDup_cons. split; [|by apply IH].
  intros Hin. apply Hk. apply list_elem_of_fmap in Hin as ([k' v'] & -> & Hin).
  apply list_elem_of_filter in Hin as [_ Hin].
  by apply (list_elem_of_fmap_2 fst) in Hin.
Qed.

Lemma NoDup_keys_representatives entries :
  NoDup (dict_keys (representatives entries)).
Proof.
  rewrite <-latest_progress_per_book_spec.
  destruct (latest_progress_per_book_inv entries) as [-> _].
  apply NoDup_distinct.
Qed.

Lemma length_filter_mono {A} (P Q : A -> Prop)
    `{!forall x, Decision (P x)} `{!forall x, Decision (Q x)} (l : list A) :
  (forall x, P x -> Q x) ->
  (length (filter P l) <= length (filter Q l))%nat.
Proof.
  intros HPQ. induction l as [|x l IH]; [done|].
  rewrite !filter_cons. destruct (decide (P x)), (decide (Q x)); simpl;
    try lia. exfalso. auto.
Qed.

Lemma get_total_books_finished_count st u threshold :
  get_total_books_finished st u threshold
  = count_reaching threshold
      (representatives (get_all_progress_for_user st u)).
Proof.
  unfold get_total_books_finished, count_reaching.
  destruct (get_all_progress_for_user st u) as [|x F] eqn:HF; [done|].
  rewrite latest_progress_per_book_spec.
  rewrite size_list_to_set.
  - apply length_map.
  - apply (NoDup_keys_filter
             (fun item => Is_true (Qle_bool threshold (percentage (snd item))))).
    apply NoDup_keys_representatives.
Qed.

(** X7.  [get_total_books_finished] is the number of documents of the user
    whose representative entry, the one of maximal timestamp, has a
    percentage of at least the threshold; each document counts once. *)
Theorem X7_books_finished_counts_representatives
    (st : Store) (u : option UUID) (threshold : Q) :
  get_total_books_finished st u threshold
  = count_reaching threshold
      (representatives (get_all_progress_for_user st u)).
Proof. apply get_total_books_finished_count. Qed.

Lemma books_finished_started_documents st u threshold :
  (0 < threshold)%Q ->
  (get_total_books_finished st u threshold <= get_total_books_started st u
   <= length (representatives (get_all_progress_for_user st u)))%nat.
Proof.
  intros Hpos. unfold get_total_books_finished, get_total_books_started.
  destruct (get_all_progress_for_user st u) as [|x F] eqn:HF; [simpl; lia|].
  set (entries := x :: F). rewrite latest_progress_per_book_spec. split.
  - apply subseteq_size. intros d.
    rewrite !elem_of_list_to_set, !list_elem_of_fmap.
    intros ([d' p] & -> & [Hreach Hin]%list_elem_of_filter). simpl in *.
    apply elem_of_representatives, representative_spec in Hin as (Hp & Hd & _).
    exists p. split; [done|]. apply list_elem_of_filter. split; [|done].
    apply Is_true_true, Qlt_bool_spec. apply Is_true_true, Qle_bool_iff in Hreach.
    eapply Qlt_le_trans; eauto.
  - assert (length (representatives entries)
            = size (list_to_set (C := gset UUID)
                      (distinct (map document_id entries)))) as ->.
    { rewrite size_list_to_set by apply NoDup_distinct.
      rewrite <-latest_progress_per_book_spec.
      destruct (latest_progress_per_book_inv entries) as [<- _].
      unfold dict_keys. by rewrite length_map. }
    apply subseteq_size. intros d.
    rewrite !elem_of_list_to_set, elem_of_distinct, !list_elem_of_fmap.
    intros (p & -> & [_ Hin]%list_elem_of_filter). by exists p.
Qed.

(** X8.  With a positive threshold no more books are finished than
    started, and no more books are started than the user has documents. *)
Theorem X8_finished_le_started_le_documents
    (st : Store) (u : option UUID) (threshold : Q) :
  (0 < threshold)%Q ->
  (get_total_books_finished st u threshold <= get_total_books_started st u
   <= length (representatives (get_all_progress_for_user st u)))%nat.
Proof. apply books_finished_started_documents. Qed.

Lemma X8_finished_le_started_witness :
  (get_total_books_finished sample_finished (Some user_1) (95 # 100)
   <= get_total_books_started sample_finished (Some user_1)
   <= length (representatives
                (get_all_progress_for_user sample_finished (Some user_1))))%nat.
Proof.
  apply (X8_finished_le_started_le_documents
           sample_finished (Some user_1) (95 # 100)).
  reflexivity.
Defined.

(** X9.  Raising the threshold never adds finished books. *)
Theorem X9_books_finished_antitone
    (st : Store) (u : option UUID) (t1 t2 : Q) :
  (t1 <= t2)%Q ->
  (get_total_books_finished st u t2 <= get_total_books_finished st u t1)%nat.
Proof.
  intros Hle. rewrite !get_total_books_finished_count.
  unfold count_reaching. apply length_filter_mono. intros item.
  rewrite !Is_true_true, !Qle_bool_iff. intros H2. eapply Qle_trans; eauto.
Qed.

Lemma X9_books_finished_antitone_witness :
  (get_total_books_finished sample_finished (Some user_1) (99 # 100)
   <= get_total_books_finished sample_finished (Some user_1) (95 # 100))%nat.
Proof.
  apply (X9_books_finished_antitone sample_finished (Some user_1)
           (95 # 100) (99 # 100)).
  discriminate.
Defined.

(** ** The average percentage *)

(** X10.  [get_average_read_percentage] returns no value exactly when the
    user has no stored entry; when it returns one, the number of documents
    it divides by is positive. *)
Theorem X10_average_defined_iff_entries (st : Store) (u : option UUID) :
  (get_average_read_percentage st u = None
   <-> forall p, p ∈ st -> user_id p <> u)
  /\ (is_Some (get_average_read_percentage st u) ->
        (0 < length (latest_progress_per_book
                       (get_all_progress_for_user st u)))%nat).
Proof.
  assert (get_all_progress_for_user st u = []
          <-> forall p, p ∈ st -> user_id p <> u) as Hnil.
  { split.
    - intros Hnil p Hp Hu.
      assert (p ∈ get_all_progress_for_user st u) as Hin.
      { unfold get_all_progress_for_user.
        by rewrite elem_of_stable_sort, list_elem_of_filter. }
      rewrite Hnil in Hin. by inv Hin.
    - intros Hall. apply get_all_progress_for_user_nil.
      by apply Forall_forall. }
  unfold get_average_read_percentage. rewrite <-Hnil.
  destruct (get_all_progress_for_user st u) as [|x F] eqn:HF.
  - split; [done|]. by intros [? ?].
  - rewrite latest_progress_per_book_spec.
    assert (representatives (x :: F) <> []) as Hne.
    { intros Hr. assert (document_id x ∈ dict_keys (representatives (x :: F))).
      { rewrite <-latest_progress_per_book_spec.
        destruct (latest_progress_per_book_inv (x :: F)) as [-> _].
        apply elem_of_distinct. left. }
      rewrite Hr in H. by inv H. }
    destruct (representatives (x :: F)) as [|item items] eqn:Hr; [done|].
    split; [done|]. intros _. simpl. lia.
Qed.

(** ** Bounds of the reading-time estimate *)

Lemma counted_delta_bounds cur next :
  0 <= counted_delta cur next
  /\ counted_delta cur next <= Z.max 0 (timestamp next - timestamp cur)
  /\ counted_delta cur next < SESSION_GAP_CAP.
Proof.
  unfold counted_delta. cbv zeta. case_decide as Hd.
  - lia.
  - assert (0 < SESSION_GAP_CAP) by done. lia.
Qed.

Lemma sum_consecutive_nonneg l : 0 <= sum_consecutive l.
Proof.
  induction l as [|a [|b l] IH]; [done..|].
  change (0 <= counted_delta a b + sum_consecutive (b :: l)).
  pose proof (counted_delta_bounds a b). lia.
Qed.

(** The counted deltas of a list in ascending order telescope. *)
Lemma sum_consecutive_telescope a l hi :
  StronglySorted (fun x y => timestamp x <= timestamp y) (a :: l) ->
  Forall (fun x => timestamp x <= hi) (a :: l) ->
  sum_consecutive (a :: l) <= hi - timestamp a.
Proof.
  revert a. induction l as [|b l IH]; intros a Hs Hhi.
  - apply Forall_cons in Hhi as [Ha _]. simpl. lia.
  - change (counted_delta a b + sum_consecutive (b :: l) <= hi - timestamp a).
    apply StronglySorted_inv in Hs as [Hs Hab].
    apply Forall_cons in Hab as [Hab _].
    apply Forall_cons in Hhi as [_ Hhi].
    specialize (IH b Hs Hhi).
    pose proof (counted_delta_bounds a b). lia.
Qed.

Lemma sum_Z_bounds {A} (f : A -> Z) (l : list A) lo hi :
  (forall x, x ∈ l -> lo <= f x <= hi) ->
  lo * Z.of_nat (length l) <= sum_Z (map f l) <= hi * Z.of_nat (length l).
Proof.
  unfold sum_Z. induction l as [|x l IH]; intros Hf; [simpl; lia|].
  assert (lo <= f x <= hi) by (apply Hf; left).
  assert (forall y, y ∈ l -> lo <= f y <= hi) as Hl
    by (intros y Hy; apply Hf; by right).
  specialize (IH Hl). simpl length. simpl foldr. lia.
Qed.

Lemma sum_Z_nonneg {A} (f : A -> Z) (l : list A) :
  (forall x, 0 <= f x) -> 0 <= sum_Z (map f l).
Proof.
  intros Hf. unfold sum_Z. induction l as [|x l IH]; simpl; [done|].
  specialize (Hf x). lia.
Qed.

Lemma get_total_reading_time_estimate_nonneg st u :
  0 <= get_total_reading_time_estimate st u.
Proof.
  rewrite get_total_reading_time_estimate_spec. unfold reading_time_spec.
  apply sum_Z_nonneg. intros d. apply sum_consecutive_nonneg.
Qed.

(** X11.  The reading-time estimate is never negative, and when all the
    stored entries of the user lie in a time window it is at most the
    length of the window for each document of the user. *)
Theorem X11_reading_time_within_window
    (st : Store) (u : option UUID) (lo hi : datetime) :
  (forall p, p ∈ st -> user_id p = u -> lo <= timestamp p <= hi) ->
  0 <= get_total_reading_time_estimate st u
  <= (hi - lo)
     * Z.of_nat (length (documents_of (get_all_progress_for_user st u))).
Proof.
  intros Hwin. split; [apply get_total_reading_time_estimate_nonneg|].
  rewrite get_total_reading_time_estimate_spec. unfold reading_time_spec.
  set (entries := get_all_progress_for_user st u).
  apply (sum_Z_bounds _ _ 0). intros d Hd.
  split; [apply sum_consecutive_nonneg|].
  assert (forall p, p ∈ samples_of entries d -> lo <= timestamp p <= hi) as Hin.
  { intros p Hp. unfold samples_of in Hp.
    apply elem_of_stable_sort, list_elem_of_filter in Hp as [_ Hp].
    unfold entries, get_all_progress_for_user in Hp.
    apply elem_of_stable_sort, list_elem_of_filter in Hp as [Hu Hp].
    by apply Hwin. }
  pose proof (samples_of_sorted entries d) as Hs.
  destruct (samples_of entries d) as [|a l] eqn:Hsam.
  - unfold documents_of in Hd. rewrite elem_of_remove_dups in Hd.
    apply list_elem_of_fmap in Hd as (p & -> & Hp).
    assert (p ∈ samples_of entries (document_id p)) as Hp'.
    { unfold samples_of. by rewrite elem_of_stable_sort, list_elem_of_filter. }
    rewrite Hsam in Hp'. by inv Hp'.
  - assert (lo <= timestamp a) by (apply Hin; left).
    etrans; [apply (sum_consecutive_telescope a l hi); [done|]|lia].
    apply Forall_forall. intros x Hx. by apply Hin.
Qed.

Lemma X11_reading_time_within_window_witness :
  0 <= get_total_reading_time_estimate
         [sample doc_A dev_D1 (10 # 100) 1000;
          sample doc_A dev_D2 (30 # 100) 2000] (Some user_1)
  <= (seconds 2000 - seconds 1000)
     * Z.of_nat (length (documents_of
         (get_all_progress_for_user
            [sample doc_A dev_D1 (10 # 100) 1000;
             sample doc_A dev_D2 (30 # 100) 2000] (Some user_1)))).
Proof.
  apply (X11_reading_time_within_window
           [sample doc_A dev_D1 (10 # 100) 1000;
            sample doc_A dev_D2 (30 # 100) 2000]
           (Some user_1) (seconds 1000) (seconds 2000)).
  intros p Hp _.
  apply elem_of_cons in Hp as [->|Hp]; [simpl; unfold seconds; lia|].
  apply elem_of_cons in Hp as [->|Hp]; [simpl; unfold seconds; lia|].
  by apply elem_of_nil in Hp.
Defined.

(** ** The most-read books, for every limit *)

Lemma StronglySorted_take {A} (R : relation A) n l :
  StronglySorted R l -> StronglySorted R (take n l).
Proof.
  intros Hs. revert n. induction Hs as [|x l Hl IH Hx]; intros [|n]; simpl;
    try constructor; [apply IH|].
  apply Forall_forall. intros y Hy. rewrite Forall_forall in Hx.
  apply Hx. eapply subseteq_take, Hy.
Qed.

Lemma StronglySorted_omap {A B} (R1 : relation A) (R2 : relation B)
    (f : A -> option B) l :
  (forall x y x' y', R1 x y -> f x = Some x' -> f y = Some y' -> R2 x' y') ->
  StronglySorted R1 l -> StronglySorted R2 (omap f l).
Proof.
  intros Hf. induction 1 as [|x l Hl IH Hx]; csimpl; [constructor|].
  destruct (f x) as [x'|] eqn:Hfx; [|done]. constructor; [done|].
  apply Forall_forall. intros y' (y & Hy & Hfy)%list_elem_of_omap.
  rewrite Forall_forall in Hx. eauto.
Qed.

Lemma length_slice_to {A} (limit : Z) (l : list A) :
  (length (slice_to limit l) <= length l)%nat
  /\ (0 <= limit -> (length (slice_to limit l) <= Z.to_nat limit)%nat)
  /\ (limit < 0 ->
      length (slice_to limit l) = Z.to_nat (Z.of_nat (length l) + limit)).
Proof.
  unfold slice_to. destruct (Z.leb_spec 0 limit); rewrite length_take; lia.
Qed.

Section most_read_any_limit.
Context {R : Type} `{!BookRepository R}.

(** X12.  Whatever the limit, negative ones included, [get_most_read_books]
    returns books in descending order of percentage; each returned pair is
    the book the repository holds for a document of the user together with
    the percentage of that document's representative entry; and there are
    no more pairs than documents, nor than a non-negative limit, while a
    negative limit [-k] leaves out at least the last [k] documents. *)
Theorem X12_most_read_sorted_and_resolved
    (book_repository : R) (st : Store) (u : option UUID) (limit : Z) :
  let entries := get_all_progress_for_user st u in
  let result := get_most_read_books book_repository st u limit in
  StronglySorted (fun a b => (snd b <= snd a)%Q) result
  /\ (forall book pct, (book, pct) ∈ result ->
        exists d p, (d, p) ∈ representatives entries
                    /\ get_book_by_id book_repository d = Some book
                    /\ pct = percentage p)
  /\ (length result <= length (representatives entries))%nat
  /\ (0 <= limit -> (length result <= Z.to_nat limit)%nat)
  /\ (limit < 0 ->
      (length result
       <= Z.to_nat (Z.of_nat (length (representatives entries)) + limit))%nat).
Proof.
  intros entries result. unfold result, get_most_read_books. fold entries.
  destruct entries as [|x F] eqn:HF.
  { split; [constructor|]. split; [by intros ?? ?%elem_of_nil|].
    simpl. lia. }
  rewrite latest_progress_per_book_spec.
  set (ranked := stable_sort pct_desc (representatives (x :: F))).
  assert (length ranked = length (representatives (x :: F))) as Hlen
    by apply length_stable_sort.
  pose proof (length_slice_to limit ranked) as (Hl1 & Hl2 & Hl3).
  pose proof (length_omap_le (most_read_step book_repository)
                (slice_to limit ranked)) as Hom.
  split; [|split; [|lia]].
  - apply (StronglySorted_omap (fun a b => pct_desc a b = true)).
    + intros a b a' b' Hab Ha Hb. unfold most_read_step in Ha, Hb.
      destruct (get_book_by_id _ a.1); [|done].
      destruct (get_book_by_id _ b.1); [|done]. simplify_eq. simpl.
      by apply Qle_bool_iff.
    + assert (StronglySorted (fun a b => pct_desc a b = true) ranked) as Hs
        by (apply stable_sort_ssorted; [apply pct_desc_total|apply pct_desc_trans]).
      unfold slice_to. destruct (0 <=? limit); by apply StronglySorted_take.
  - intros book pct ([d p] & Hin & Hstep)%list_elem_of_omap.
    unfold most_read_step in Hstep. simpl in Hstep.
    destruct (get_book_by_id book_repository d) as [b|] eqn:Hb; [|done].
    simplify_eq. exists d, p. split; [|done].
    assert ((d, p) ∈ ranked) as Hr.
    { unfold slice_to in Hin. destruct (0 <=? limit);
        eapply subseteq_take, Hin. }
    unfold ranked in Hr. by rewrite elem_of_stable_sort in Hr.
Qed.
End most_read_any_limit.

(** ** The buckets of the reading activity *)

Lemma Qplus_inject_Z (a b : Z) : (inject_Z a + inject_Z b)%Q = inject_Z (a + b).
Proof. unfold Qplus, inject_Z. simpl. f_equal. lia. Qed.

Lemma sum_Q_inject_Z (ns : list Z) :
  sum_Q (map inject_Z ns) = inject_Z (sum_Z ns).
Proof.
  unfold sum_Q, sum_Z. induction ns as [|n ns IH]; [done|].
  simpl. by rewrite IH, Qplus_inject_Z.
Qed.

Lemma activity_incr_cons k' v' (activity : dict string Q) k :
  activity_incr ((k', v') :: activity) k
  = if decide (k' = k) then (k, (v' + 1)%Q) :: activity
    else (k', v') :: activity_incr activity k.
Proof. unfold activity_incr. simpl. by destruct (decide (k' = k)). Qed.

(** Incrementing a bucket adds one to the total of the buckets. *)
Lemma activity_incr_values (activity : dict string Q) k ns :
  dict_values activity = map inject_Z ns ->
  exists ns', dict_values (activity_incr activity k) = map inject_Z ns'
              /\ sum_Z ns' = sum_Z ns + 1.
Proof.
  revert ns. induction activity as [|[k' v'] activity IH]; intros ns Hv.
  - destruct ns; [|done]. by exists [1].
  - destruct ns as [|n ns]; [done|]. injection Hv as Hv' Hv.
    rewrite activity_incr_cons. destruct (decide (k' = k)) as [->|Hne].
    + exists (n + 1 :: ns). split.
      * unfold dict_values in *. simpl. by rewrite Hv', Hv, Qplus_inject_Z_1.
      * unfold sum_Z. simpl. lia.
    + destruct (IH ns Hv) as (ns' & Hns' & Hsum). exists (n :: ns'). split.
      * unfold dict_values in *. simpl. by rewrite Hv', Hns'.
      * unfold sum_Z in *. simpl. lia.
Qed.

Lemma activity_fold_values period (items : dict UUID Progress) :
  exists ns,
    dict_values (fold_left (activity_step period) items []) = map inject_Z ns
    /\ sum_Z ns = Z.of_nat (count_reaching (95 # 100) items).
Proof.
  induction items as [|x items (ns & Hv & Hsum)] using rev_ind.
  - by exists [].
  - rewrite fold_left_app. simpl. unfold count_reaching in *.
    rewrite filter_app, filter_cons, filter_nil, length_app.
    unfold activity_step.
    destruct (decide (Is_true (Qle_bool (95 # 100) (percentage (snd x)))))
      as [Hd|Hd];
      destruct (Qle_bool (95 # 100) (percentage (snd x))) eqn:Hfin;
      try done; try (by destruct Hd).
    + destruct (activity_incr_values _ (period_key_of period (snd x)) ns Hv)
        as (ns' & Hv' & Hsum').
      exists ns'. split; [done|]. simpl. lia.
    + exists ns. split; [done|]. simpl. lia.
Qed.

(** X13.  For every period the buckets of the reading activity add up to
    the number of finished books, finished at the threshold 0.95. *)
Theorem X13_activity_adds_up_to_finished
    (st : Store) (u : option UUID) (period : string) :
  sum_Q (dict_values (get_reading_activity_over_time st u period))
  = inject_Z (Z.of_nat (get_total_books_finished st u (95 # 100))).
Proof.
  rewrite get_total_books_finished_count.
  unfold get_reading_activity_over_time.
  destruct (get_all_progress_for_user st u) as [|x F] eqn:HF; [done|].
  rewrite latest_progress_per_book_spec.
  destruct (activity_fold_values period (representatives (x :: F)))
    as (ns & Hv & Hsum).
  set (activity := fold_left (activity_step period)
                             (representatives (x :: F)) []) in *.
  assert (dict_values (stable_sort item_le activity) ≡ₚ map inject_Z ns)
    as Hperm.
  { rewrite <-Hv. unfold dict_values. apply Permutation_map, stable_sort_perm. }
  apply Permutation_map_inv in Hperm as (ns' & -> & Hns).
  rewrite sum_Q_inject_Z. f_equal. rewrite <-Hsum. symmetry.
  by apply sum_Z_perm.
Qed.

Lemma string_ltb_lt a b : String.ltb a b = true <-> String_as_OT.lt a b.
Proof.
  rewrite <-String_as_OT.cmp_lt. unfold String.ltb, String_as_OT.cmp.
  by destruct (String.compare a b).
Qed.

Lemma item_le_total a b : item_le a b = true \/ item_le b a = true.
Proof.
  unfold item_le.
  destruct (String.compare (fst a) (fst b)) eqn:Hc.
  - apply String_as_OT.cmp_eq in Hc. rewrite Hc, String.eqb_refl.
    destruct (Qlt_le_dec (snd b) (snd a)) as [Hq|Hq].
    + right. apply Qlt_le_weak, Qle_bool_iff in Hq. rewrite Hq.
      by rewrite orb_true_r.
    + left. apply Qle_bool_iff in Hq. rewrite Hq. by rewrite orb_true_r.
  - left. unfold String.ltb. by rewrite Hc.
  - right. unfold String.ltb. rewrite String.compare_antisym, Hc. done.
Qed.

Lemma item_le_cases a b :
  item_le a b = true
  <-> String_as_OT.lt (fst a) (fst b)
      \/ (fst a = fst b /\ (snd a <= snd b)%Q).
Proof.
  unfold item_le.
  rewrite orb_true_iff, andb_true_iff, string_ltb_lt, String.eqb_eq,
    Qle_bool_iff. done.
Qed.

Lemma item_le_trans a b c :
  item_le a b = true -> item_le b c = true -> item_le a c = true.
Proof.
  rewrite !item_le_cases. intros [Hab|[Hab Hq1]] [Hbc|[Hbc Hq2]].
  - left. eapply String_as_OT.lt_trans; eauto.
  - left. by rewrite <-Hbc.
  - left. by rewrite Hab.
  - right. split; [congruence|]. eapply Qle_trans; eauto.
Qed.

Lemma StronglySorted_strict {V} (R1 R2 : relation (string * V)) l :
  (forall x y, R1 x y -> fst x <> fst y -> R2 x y) ->
  NoDup (dict_keys l) -> StronglySorted R1 l -> StronglySorted R2 l.
Proof.
  intros HR Hnd Hs. induction Hs as [|x l Hl IH Hx]; [constructor|].
  unfold dict_keys in *. simpl in Hnd. apply NoDup_cons in Hnd as [Hx' Hnd].
  constructor; [by apply IH|]. apply Forall_forall. intros y Hy.
  rewrite Forall_forall in Hx. apply HR; [by apply Hx|].
  intros Heq. apply Hx'. rewrite Heq. by apply (list_elem_of_fmap_2 fst).
Qed.

(** X14.  The buckets of the reading activity are returned in strictly
    ascending order of their period key, so no key occurs twice. *)
Theorem X14_activity_keys_strictly_ascend
    (st : Store) (u : option UUID) (period : string) :
  StronglySorted (fun a b => String.ltb (fst a) (fst b) = true)
                 (get_reading_activity_over_time st u period)
  /\ NoDup (dict_keys (get_reading_activity_over_time st u period)).
Proof.
  unfold get_reading_activity_over_time.
  destruct (get_all_progress_for_user st u) as [|x F] eqn:HF;
    [split; constructor|].
  destruct (activity_fold_inv period (latest_progress_per_book (x :: F)))
    as [Hnd _].
  set (activity := fold_left (activity_step period)
                             (latest_progress_per_book (x :: F)) []) in *.
  assert (NoDup (dict_keys (stable_sort item_le activity))) as Hnd'.
  { unfold dict_keys in *.
    by rewrite (Permutation_map fst (stable_sort_perm item_le activity)). }
  split; [|done].
  apply (StronglySorted_strict (fun a b => item_le a b = true)); [|done|].
  - intros a b Hab Hne. apply item_le_cases in Hab as [Hlt|[Heq _]]; [|done].
    by apply string_ltb_lt.
  - apply stable_sort_ssorted; [apply item_le_total|apply item_le_trans].
Qed.

(** ** The reading summary of the service *)

Lemma round_half_even_bounds n d :
  0 < d ->
  n / d <= round_half_even n d /\ 2 * d * round_half_even n d <= 2 * n + d.
Proof.
  intros Hd. unfold round_half_even. cbv zeta.
  pose proof (Z.div_mod n d ltac:(lia)) as Hn.
  pose proof (Z.mod_pos_bound n d Hd) as Hr.
  destruct (Z.ltb_spec (2 * (n mod d)) d); [nia|].
  destruct (Z.ltb_spec d (2 * (n mod d))); [nia|].
  destruct (Z.even (n / d)); nia.
Qed.

(** Rounding to a grid of [2^-k] and taking the integral part gives the
    integral part of the exact quotient when the grid is finer than
    [1 / d]. *)
Lemma round_half_even_integral_part n d k :
  0 <= n -> 0 < d -> 0 <= k -> d < 2 ^ (k + 1) ->
  round_half_even (n * 2 ^ k) d / 2 ^ k = n / d.
Proof.
  intros Hn Hd Hk Hfine.
  assert (0 < 2 ^ k) as HP by (apply Z.pow_pos_nonneg; lia).
  rewrite Z.pow_add_r, Z.pow_1_r in Hfine by lia.
  pose proof (round_half_even_bounds (n * 2 ^ k) d Hd) as [Hlo Hhi].
  pose proof (Z.div_mod n d ltac:(lia)) as Hdiv.
  pose proof (Z.mod_pos_bound n d Hd) as Hr.
  assert (0 <= n / d) as Hq by (apply Z.div_pos; lia).
  set (P := 2 ^ k) in *. set (q := n / d) in *.
  set (m := round_half_even (n * P) d) in *.
  assert (q * P <= m) as Hlow.
  { etrans; [|exact Hlo]. apply Z.div_le_lower_bound; [done|]. nia. }
  assert (m < (q + 1) * P) as Hup by nia.
  symmetry. apply (Z.div_unique m P q (m - q * P)); lia.
Qed.

Lemma log2_ratio_below n d b :
  0 < n -> 0 < d -> 0 <= b -> n < 2 ^ b * d -> log2_ratio n d < b.
Proof.
  intros Hn Hd Hb Hlt. unfold log2_ratio. cbv zeta.
  set (l := Z.log2 n - Z.log2 d).
  assert (l <= b) as Hl.
  { unfold l. pose proof (Z.log2_spec n Hn) as [Hn1 Hn2].
    pose proof (Z.log2_spec d Hd) as [Hd1 Hd2].
    pose proof (Z.log2_nonneg n). pose proof (Z.log2_nonneg d).
    destruct (Z.le_gt_cases (Z.log2 n) (b + Z.log2 d)) as [|Hgt]; [lia|].
    exfalso.
    assert (2 ^ (b + (Z.log2 d + 1)) <= 2 ^ Z.log2 n) as Hpow
      by (apply Z.pow_le_mono_r; lia).
    rewrite Z.pow_add_r in Hpow by lia. unfold Z.succ in Hd2.
    assert (0 < 2 ^ b) by (apply Z.pow_pos_nonneg; lia).
    assert (2 ^ b * d < 2 ^ b * 2 ^ (Z.log2 d + 1))
      by (apply Z.mul_lt_mono_pos_l; lia).
    lia. }
  destruct (Z.eq_dec l b) as [Heq|Hne].
  - rewrite Heq. destruct (Z.leb_spec 0 b); [|lia].
    destruct (Z.leb_spec (d * 2 ^ b) n); lia.
  - destruct (if 0 <=? l then d * 2 ^ l <=? n else d <=? n * 2 ^ (- l)); lia.
Qed.

(** Below 2^33 seconds [total_seconds] keeps the microseconds apart, and
    [int] of it is the number of whole seconds. *)
Lemma whole_seconds_exact td :
  0 <= td < 2 ^ 33 * 1000000 -> whole_seconds td = td / 1000000.
Proof.
  intros [H0 Hlt]. unfold whole_seconds.
  destruct (Z.eqb_spec td 0) as [->|Hne]; [done|].
  assert (0 < td) as Hpos by lia.
  rewrite Z.sgn_pos, Z.abs_eq, Z.mul_1_l by lia.
  pose proof (log2_ratio_below td 1000000 33 Hpos ltac:(lia) ltac:(lia) Hlt)
    as Hlog.
  unfold true_divide, int_of_double. cbv zeta.
  set (e := log2_ratio td 1000000 - 52) in *.
  destruct (Z.leb_spec 0 e); [lia|].
  apply round_half_even_integral_part; [lia..|].
  assert (2 ^ 21 <= 2 ^ (- e + 1)) by (apply Z.pow_le_mono_r; lia).
  assert (1000000 < 2 ^ 21) by done. lia.
Qed.

(** X15.  While the reading-time estimate is below 2^33 seconds, the
    reading time of the summary reads [h hours, m minutes] with [h] not
    negative and [m] between 0 and 59, and these are the whole seconds of
    the estimate rounded down to whole minutes; the summary never reports
    more finished books than started ones, and has no average exactly
    when the user has no stored entry. *)
Theorem X15_reading_summary (st : Store) (u : option UUID) :
  get_total_reading_time_estimate st u < seconds (2 ^ 33) ->
  let summary := get_user_reading_summary st u in
  let total_seconds := get_total_reading_time_estimate st u / 1000000 in
  (exists h m,
      total_reading_time_estimate summary
      = (str_int h +:+ " hours, " +:+ str_int m +:+ " minutes")%string
      /\ 0 <= h /\ 0 <= m < 60
      /\ 3600 * h + 60 * m <= total_seconds < 3600 * h + 60 * m + 60)
  /\ 0 <= total_seconds
  /\ (total_books_finished summary <= total_books_started summary)%nat
  /\ (average_read_percentage summary = None
      <-> get_all_progress_for_user st u = []).
Proof.
  intros Hbound summary total_seconds.
  pose proof (get_total_reading_time_estimate_nonneg st u) as Hnn.
  assert (whole_seconds (get_total_reading_time_estimate st u)
          = total_seconds) as Hwhole
    by (apply whole_seconds_exact; unfold seconds in Hbound; lia).
  assert (0 <= total_seconds) as Hs by (apply Z.div_pos; lia).
  split; [|split; [done|split]].
  - exists (total_seconds / 3600), ((total_seconds mod 3600) / 60).
    split; [unfold summary, get_user_reading_summary; simpl;
            by rewrite Hwhole|].
    pose proof (Z.div_mod total_seconds 3600 ltac:(lia)).
    pose proof (Z.mod_pos_bound total_seconds 3600 ltac:(lia)).
    pose proof (Z.div_mod (total_seconds mod 3600) 60 ltac:(lia)).
    pose proof (Z.mod_pos_bound (total_seconds mod 3600) 60 ltac:(lia)).
    assert (0 <= total_seconds / 3600) by (apply Z.div_pos; lia).
    assert (0 <= total_seconds mod 3600 / 60) by (apply Z.div_pos; lia).
    assert (total_seconds mod 3600 / 60 < 60)
      by (apply Z.div_lt_upper_bound; lia).
    lia.
  - apply (books_finished_started_documents st u (95 # 100)). reflexivity.
  - unfold summary. simpl. unfold get_average_read_percentage.
    destruct (get_all_progress_for_user st u) as [|x F] eqn:HF; [done|].
    rewrite latest_progress_per_book_spec.
    destruct (representatives (x :: F)) as [|item items] eqn:Hr; [|done].
    exfalso.
    assert (document_id x ∈ dict_keys (representatives (x :: F))) as Hin.
    { rewrite <-latest_progress_per_book_spec.
      destruct (latest_progress_per_book_inv (x :: F)) as [-> _].
      apply elem_of_distinct. left. }
    rewrite Hr in Hin. by inv Hin.
Qed.

Lemma X15_reading_summary_witness :
  exists h m,
    total_reading_time_estimate
      (get_user_reading_summary
         [sample doc_A dev_D1 (10 # 100) 1000;
          sample doc_A dev_D2 (30 # 100) 2000] (Some user_1))
    = (str_int h +:+ " hours, " +:+ str_int m +:+ " minutes")%string
    /\ 0 <= h /\ 0 <= m < 60
    /\ 3600 * h + 60 * m
       <= get_total_reading_time_estimate
            [sample doc_A dev_D1 (10 # 100) 1000;
             sample doc_A dev_D2 (30 # 100) 2000] (Some user_1) / 1000000
       < 3600 * h + 60 * m + 60.
Proof.
  apply (X15_reading_summary
           [sample doc_A dev_D1 (10 # 100) 1000;
            sample doc_A dev_D2 (30 # 100) 2000] (Some user_1)).
  reflexivity.
Defined.

(** The summary of that store, and the whole seconds of an estimate of
    2^34 + 55.999999 seconds, which the double rounds up to the next
    second. *)
Example reading_summary_example :
  total_reading_time_estimate
    (get_user_reading_summary
       [sample doc_A dev_D1 (10 # 100) 1000;
        sample doc_A dev_D2 (30 # 100) 2000] (Some user_1))
  = "0 hours, 16 minutes"%string
  /\ whole_seconds ((2 ^ 34 + 55) * 1000000 + 999999) = 2 ^ 34 + 56
  /\ whole_seconds 999999 = 0
  /\ whole_seconds (-1500000) = -1.
Proof. vm_compute. repeat split. Qed.

(** ** The in-memory book repository *)

Lemma book_store_consistent_empty : book_store_consistent empty_book_store.
Proof.
  split; simpl.
  - intros id b. by rewrite lookup_empty.
  - intros id b. by rewrite lookup_empty.
  - intros doc id. by rewrite lookup_empty.
  - constructor.
  - intros id. rewrite lookup_empty. split; [by intros ?%elem_of_nil|].
    by intros [? ?].
Qed.

Lemma create_book_inr repo book repo' b :
  create_book repo book = inr (repo', b) ->
  _books repo !! book_id book = None
  /\ _books_by_doc_id repo !! book_document_id book = None
  /\ b = book
  /\ repo' = {| _books := <[book_id book := book]> (_books repo);
               _books_by_doc_id :=
                 <[book_document_id book := book_id book]>
                   (_books_by_doc_id repo);
               _book_order_for_listing :=
                 if decide (book_id book ∈ _book_order_for_listing repo)
                 then _book_order_for_listing repo
                 else _book_order_for_listing repo ++ [book_id book] |}.
Proof.
  unfold create_book.
  destruct (decide (is_Some (_books repo !! book_id book))) as [|H1]; [done|].
  destruct (decide (is_Some (_books_by_doc_id repo !! book_document_id book)))
    as [|H2]; [done|].
  intros [= <- <-]. by rewrite !eq_None_not_Some.
Qed.

Lemma create_book_consistent repo book repo' b :
  book_store_consistent repo ->
  create_book repo book = inr (repo', b) ->
  book_store_consistent repo'.
Proof.
  intros [Hid Hdoc Hidx Hnd Hord] (HB & HI & -> & ->)%create_book_inr.
  assert (book_id book ∉ _book_order_for_listing repo) as Hnot.
  { rewrite Hord, HB. by intros [? ?]. }
  rewrite decide_False by done. split; simpl.
  - intros id b [[<- <-]|[Hne Hb]]%lookup_insert_Some; [done|by apply Hid].
  - intros id b [[<- <-]|[Hne Hb]]%lookup_insert_Some.
    + apply lookup_insert_eq.
    + rewrite lookup_insert_ne; [by apply Hdoc|].
      intros Heq. apply Hdoc in Hb. congruence.
  - intros doc id [[<- <-]|[Hne Hd]]%lookup_insert_Some.
    + exists book. by rewrite lookup_insert_eq.
    + destruct (Hidx doc id Hd) as (b & Hb & Hbd). exists b. split; [|done].
      rewrite lookup_insert_ne; [done|]. intros <-. congruence.
  - apply NoDup_app. split; [done|]. split; [|apply NoDup_singleton].
    by intros id Hin ->%list_elem_of_singleton.
  - intros id. rewrite elem_of_app, list_elem_of_singleton, Hord.
    rewrite lookup_insert_is_Some.
    destruct (decide (book_id book = id)) as [->|]; [tauto|].
    split; [intros [?|?]; [tauto|congruence]|tauto].
Qed.

Lemma update_book_inr repo book repo' b :
  update_book repo book = inr (repo', b) ->
  exists original_book,
    _books repo !! book_id book = Some original_book
    /\ b = book
    /\ _books repo' = <[book_id book := book]> (_books repo)
    /\ _book_order_for_listing repo' = _book_order_for_listing repo
    /\ ((book_document_id original_book = book_document_id book
         /\ _books_by_doc_id repo' = _books_by_doc_id repo)
        \/ (book_document_id original_book <> book_document_id book
            /\ document_id_taken repo book = false
            /\ _books_by_doc_id repo'
               = <[book_document_id book := book_id book]>
                   (delete (book_document_id original_book)
                           (_books_by_doc_id repo)))).
Proof.
  unfold update_book.
  destruct (_books repo !! book_id book) as [original_book|]; [|done].
  destruct (decide (book_document_id original_book <> book_document_id book))
    as [Hne|Heq].
  - destruct (document_id_taken repo book) eqn:Htaken; [done|].
    destruct (_books_by_doc_id repo !! book_document_id original_book);
      [|done].
    intros [= <- <-]. exists original_book. simpl. tauto.
  - intros [= <- <-]. exists original_book. simpl.
    apply dec_stable in Heq. tauto.
Qed.

Lemma document_id_taken_false repo book :
  document_id_taken repo book = false ->
  forall id, _books_by_doc_id repo !! book_document_id book = Some id ->
             id = book_id book.
Proof.
  unfold document_id_taken. intros Ht id Hid. rewrite Hid in Ht.
  apply bool_decide_eq_false in Ht. by apply dec_stable in Ht.
Qed.

Lemma update_book_consistent repo book repo' b :
  book_store_consistent repo ->
  update_book repo book = inr (repo', b) ->
  book_store_consistent repo'.
Proof.
  intros [Hid Hdoc Hidx Hnd Hord]
         (orig & Horig & -> & HB & HO & Hcase)%update_book_inr.
  pose proof (Hdoc _ _ Horig) as Hidx_orig.
  assert (forall id, is_Some (<[book_id book := book]> (_books repo) !! id)
                     <-> is_Some (_books repo !! id)) as Hsome.
  { intros id. rewrite lookup_insert_is_Some.
    destruct (decide (book_id book = id)) as [<-|]; [|tauto].
    rewrite Horig. split; [by eauto|tauto]. }
  split; rewrite ?HB, ?HO; [| | |done|by intros id; rewrite Hsome].
  - intros id b [[<- <-]|[Hne Hb]]%lookup_insert_Some; [done|by apply Hid].
  - intros id b [[<- <-]|[Hne Hb]]%lookup_insert_Some.
    + destruct Hcase as [[Heq ->]|(Hneq & Ht & ->)]; [congruence|].
      apply lookup_insert_eq.
    + pose proof (Hdoc _ _ Hb) as Hb'.
      destruct Hcase as [[Heq ->]|(Hneq & Ht & ->)]; [done|].
      rewrite lookup_insert_ne, lookup_delete_ne; [done|congruence|].
      intros Heq. rewrite <-Heq in Hb'.
      apply (document_id_taken_false _ _ Ht) in Hb'. congruence.
  - intros doc id Hlook.
    destruct Hcase as [[Heq HI]|(Hneq & Ht & HI)]; rewrite HI in Hlook.
    + destruct (Hidx doc id Hlook) as (b & Hb & Hbd).
      destruct (decide (book_id book = id)) as [<-|Hne].
      * exists book. rewrite lookup_insert_eq. split; [done|]. congruence.
      * exists b. by rewrite lookup_insert_ne.
    + apply lookup_insert_Some in Hlook as [[<- <-]|[Hne Hlook]].
      * exists book. by rewrite lookup_insert_eq.
      * apply lookup_delete_Some in Hlook as [Hne' Hlook].
        destruct (Hidx doc id Hlook) as (b & Hb & Hbd). exists b.
        split; [|done]. rewrite lookup_insert_ne; [done|].
        intros <-. congruence.
Qed.

Lemma delete_book_inr repo id repo' :
  delete_book repo id = inr repo' ->
  exists book_to_delete,
    _books repo !! id = Some book_to_delete
    /\ repo' = {| _books := delete id (_books repo);
                 _books_by_doc_id :=
                   delete (book_document_id book_to_delete)
                          (_books_by_doc_id repo);
                 _book_order_for_listing :=
                   remove_first id (_book_order_for_listing repo) |}.
Proof.
  unfold delete_book. destruct (_books repo !! id) as [b|]; [|done].
  intros [= <-]. by exists b.
Qed.

Lemma remove_first_notin x l : x ∉ l -> remove_first x l = l.
Proof.
  induction l as [|y l IH]; [done|]. intros Hx. simpl.
  rewrite decide_False by (intros ->; apply Hx; left).
  rewrite IH; [done|]. intros Hin. apply Hx. by right.
Qed.

Lemma elem_of_remove_first x l y :
  NoDup l -> y ∈ remove_first x l <-> y ∈ l /\ y <> x.
Proof.
  induction l as [|z l IH]; intros Hnd; simpl.
  - split; [by intros ?%elem_of_nil|by intros [?%elem_of_nil _]].
  - apply NoDup_cons in Hnd as [Hz Hnd]. destruct (decide (z = x)) as [->|Hne].
    + rewrite elem_of_cons. split; [|intros [[?|?] ?]; [done..]].
      intros Hy. split; [by right|]. by intros ->.
    + rewrite !elem_of_cons, IH by done. split; [|tauto].
      intros [->|[? ?]]; tauto.
Qed.

Lemma NoDup_remove_first x l : NoDup l -> NoDup (remove_first x l).
Proof.
  induction l as [|z l IH]; [done|]. intros [Hz Hnd]%NoDup_cons. simpl.
  destruct (decide (z = x)); [done|]. apply NoDup_cons. split; [|by apply IH].
  rewrite elem_of_remove_first by done. tauto.
Qed.

Lemma delete_book_consistent repo id repo' :
  book_store_consistent repo ->
  delete_book repo id = inr repo' ->
  book_store_consistent repo'.
Proof.
  intros [Hid Hdoc Hidx Hnd Hord] (del & Hdel & ->)%delete_book_inr.
  pose proof (Hdoc _ _ Hdel) as Hidx_del.
  split; simpl.
  - intros id' b [_ Hb]%lookup_delete_Some. by apply Hid.
  - intros id' b [Hne Hb]%lookup_delete_Some.
    rewrite lookup_delete_ne; [by apply Hdoc|].
    intros Heq. apply Hdoc in Hb. congruence.
  - intros doc id' [Hne Hlook]%lookup_delete_Some.
    destruct (Hidx doc id' Hlook) as (b & Hb & Hbd). exists b. split; [|done].
    rewrite lookup_delete_ne; [done|]. intros <-. congruence.
  - by apply NoDup_remove_first.
  - intros id'. rewrite elem_of_remove_first, Hord by done.
    destruct (decide (id = id')) as [<-|Hne].
    + rewrite lookup_delete_eq. split; [tauto|by intros [? ?]].
    + rewrite lookup_delete_ne by done. split; [tauto|]. intros ?. split; [done|].
      congruence.
Qed.

Lemma get_book_by_document_id_Some repo doc b :
  book_store_consistent repo ->
  get_book_by_document_id repo doc = Some b
  <-> _books repo !! book_id b = Some b /\ book_document_id b = doc.
Proof.
  intros [Hid Hdoc Hidx _ _]. unfold get_book_by_document_id. split.
  - destruct (_books_by_doc_id repo !! doc) as [id|] eqn:Hlook; [|done].
    intros Hb. destruct (Hidx doc id Hlook) as (b' & Hb' & Hbd).
    assert (b' = b) as -> by congruence. by rewrite (Hid _ _ Hb).
  - intros [Hb <-]. by rewrite (Hdoc _ _ Hb).
Qed.

Lemma option_ext {A} (x y : option A) :
  (forall a, x = Some a <-> y = Some a) -> x = y.
Proof.
  intros H. destruct x as [a|]; [symmetry; by apply H|].
  destruct y as [a|]; [by apply H|done].
Qed.

Lemma all_books_ids repo :
  book_store_consistent repo ->
  map book_id (all_books repo) = _book_order_for_listing repo.
Proof.
  intros [Hid _ _ _ Hord]. unfold all_books.
  assert (forall id, id ∈ _book_order_for_listing repo ->
                     is_Some (_books repo !! id)) as Hall
    by (intros id; apply Hord).
  clear Hord.
  induction (_book_order_for_listing repo) as [|id l IH]; [done|]. csimpl.
  destruct (Hall id) as [b Hb]; [left|]. rewrite Hb. simpl.
  rewrite (Hid _ _ Hb). f_equal. apply IH. intros id' Hin. apply Hall.
  by right.
Qed.

Lemma elem_of_all_books repo b :
  book_store_consistent repo ->
  b ∈ all_books repo <-> _books repo !! book_id b = Some b.
Proof.
  intros Hc. pose proof Hc as [Hid _ _ _ Hord]. unfold all_books.
  rewrite list_elem_of_omap. split.
  - intros (id & _ & Hb). by rewrite (Hid _ _ Hb).
  - intros Hb. exists (book_id b). split; [|done]. apply Hord. by eauto.
Qed.

Lemma length_order_size repo :
  book_store_consistent repo ->
  length (_book_order_for_listing repo) = size (_books repo).
Proof.
  intros [_ _ _ Hnd Hord].
  rewrite <-(size_dom (D := gset UUID)), <-(size_list_to_set (C := gset UUID))
    by done.
  f_equal. apply set_eq. intros id.
  by rewrite elem_of_list_to_set, elem_of_dom, Hord.
Qed.

Lemma omap_take_drop {A B} (f : A -> option B) (l : list A) n :
  (forall x, x ∈ l -> is_Some (f x)) ->
  omap f (take n l) = take n (omap f l)
  /\ omap f (drop n l) = drop n (omap f l).
Proof.
  revert n. induction l as [|x l IH]; intros n Hall.
  - by destruct n.
  - destruct n as [|n]; [done|]. csimpl.
    destruct (Hall x) as [y Hy]; [left|]. rewrite Hy. simpl.
    destruct (IH n) as [-> ->]; [|done]. intros z Hz. apply Hall. by right.
Qed.

Lemma slice_take_drop {A} (l : list A) (offset limit : Z) :
  0 <= offset -> 0 < limit ->
  slice l offset (offset + limit)
  = take (Z.to_nat limit) (drop (Z.to_nat offset) l).
Proof.
  intros Ho Hl. unfold slice, slice_index.
  destruct (Z.ltb_spec offset 0); [lia|].
  destruct (Z.ltb_spec (offset + limit) 0); [lia|].
  rewrite take_drop_commute.
  replace (Z.to_nat offset + Z.to_nat limit)%nat
    with (Z.to_nat (offset + limit)) by lia.
  destruct (Z.le_gt_cases (offset + limit) (Z.of_nat (length l))).
  - rewrite !Z.min_l by lia. done.
  - rewrite (Z.min_r (offset + limit)) by lia.
    rewrite Nat2Z.id, (take_ge l (length l)) by done.
    rewrite (take_ge l (Z.to_nat (offset + limit))) by lia.
    destruct (Z.le_gt_cases offset (Z.of_nat (length l))).
    + rewrite Z.min_l by lia. done.
    + rewrite Z.min_r, Nat2Z.id by lia. rewrite !drop_ge; [done|lia|done].
Qed.

Lemma list_books_spec repo offset limit :
  book_store_consistent repo ->
  list_books repo offset limit
  = (take (Z.to_nat (if limit <=? 0 then 20 else limit))
          (drop (Z.to_nat offset) (all_books repo)),
     size (_books repo)).
Proof.
  intros Hc. unfold list_books. cbv zeta.
  rewrite (length_order_size repo Hc). f_equal.
  assert (forall id, id ∈ _book_order_for_listing repo ->
                     is_Some (_books repo !! id)) as Hall
    by (intros id; apply Hc).
  set (limit' := if limit <=? 0 then 20 else limit).
  assert (0 < limit') by (unfold limit'; destruct (Z.leb_spec limit 0); lia).
  assert (Z.to_nat offset = Z.to_nat (if offset <? 0 then 0 else offset)) as ->
    by (destruct (Z.ltb_spec offset 0); lia).
  rewrite slice_take_drop; [|destruct (Z.ltb_spec offset 0); lia|done].
  unfold all_books.
  set (o := Z.to_nat (if offset <? 0 then 0 else offset)).
  destruct (omap_take_drop (fun id => _books repo !! id)
              (_book_order_for_listing repo) o Hall) as [_ <-].
  apply omap_take_drop. intros id Hin. apply Hall.
  eapply subseteq_drop, Hin.
Qed.

Lemma all_books_create repo book repo' b :
  book_store_consistent repo ->
  create_book repo book = inr (repo', b) ->
  all_books repo' = all_books repo ++ [book].
Proof.
  intros Hc (HB & HI & -> & ->)%create_book_inr.
  assert (book_id book ∉ _book_order_for_listing repo) as Hnot.
  { rewrite (consistent_order _ Hc), HB. by intros [? ?]. }
  unfold all_books. simpl. rewrite decide_False by done.
  rewrite omap_app. csimpl. rewrite lookup_insert_eq. f_equal.
  apply omap_ext_elem. intros id Hin. apply lookup_insert_ne.
  by intros <-.
Qed.

Lemma all_books_delete repo id repo' :
  book_store_consistent repo ->
  delete_book repo id = inr repo' ->
  all_books repo' = filter (fun b => book_id b <> id) (all_books repo).
Proof.
  intros [Hid _ _ Hnd _] (del & Hdel & ->)%delete_book_inr.
  unfold all_books. simpl.
  induction (_book_order_for_listing repo) as [|y l IH]; [done|].
  apply NoDup_cons in Hnd as [Hy Hnd]. simpl remove_first.
  destruct (decide (y = id)) as [->|Hne].
  - csimpl. rewrite Hdel. simpl. rewrite filter_cons.
    rewrite decide_False by (rewrite (Hid _ _ Hdel); tauto).
    rewrite <-IH by done. by rewrite remove_first_notin.
  - csimpl. rewrite lookup_delete_ne by done.
    destruct (_books repo !! y) as [b|] eqn:Hb; simpl; [|by apply IH].
    rewrite filter_cons, decide_True by (by rewrite (Hid _ _ Hb)).
    f_equal. by apply IH.
Qed.

(** X16.  A book that [create_book] accepts is returned as given and is
    then found by its identifier and by its document identifier; the
    lookups of all other identifiers and document identifiers are as
    before, and the book is listed after the books already stored. *)
Theorem X16_create_book_round_trip
    (repo : BookStore) (book : Book) (repo' : BookStore) (b : Book) :
  book_store_consistent repo ->
  create_book repo book = inr (repo', b) ->
  b = book
  /\ get_book_by_id repo (book_id book) = None
  /\ get_book_by_id repo' (book_id book) = Some book
  /\ get_book_by_document_id repo' (book_document_id book) = Some book
  /\ (forall id, id <> book_id book ->
        get_book_by_id repo' id = get_book_by_id repo id)
  /\ (forall doc, doc <> book_document_id book ->
        get_book_by_document_id repo' doc = get_book_by_document_id repo doc)
  /\ all_books repo' = all_books repo ++ [book].
Proof.
  intros Hc Hcreate.
  pose proof (create_book_consistent _ _ _ _ Hc Hcreate) as Hc'.
  pose proof (all_books_create _ _ _ _ Hc Hcreate) as Hall.
  apply create_book_inr in Hcreate as (HB & HI & -> & Hrepo').
  assert (_books repo' = <[book_id book := book]> (_books repo)) as HB'
    by (by rewrite Hrepo').
  assert (_books repo' !! book_id book = Some book) as Hnew
    by (rewrite HB'; apply lookup_insert_eq).
  split; [done|]. split; [done|]. split; [done|].
  split; [by apply get_book_by_document_id_Some|].
  split; [|split; [|done]].
  - intros id Hne. simpl. rewrite HB'. by apply lookup_insert_ne.
  - intros doc Hne. apply option_ext. intros a.
    rewrite !get_book_by_document_id_Some by done. rewrite HB'.
    rewrite lookup_insert_Some. split.
    + intros [[[_ <-]|[_ Ha]] Hd]; [done|done].
    + intros [Ha Hd]. split; [|done]. right. split; [|done].
      intros Heq. congruence.
Qed.

Lemma X16_create_book_round_trip_witness :
  sample_book doc_A "A" = sample_book doc_A "A"
  /\ get_book_by_id empty_book_store (book_id (sample_book doc_A "A")) = None
  /\ get_book_by_id sample_library (book_id (sample_book doc_A "A"))
     = Some (sample_book doc_A "A")
  /\ get_book_by_document_id sample_library
       (book_document_id (sample_book doc_A "A"))
     = Some (sample_book doc_A "A")
  /\ (forall id, id <> book_id (sample_book doc_A "A") ->
        get_book_by_id sample_library id = get_book_by_id empty_book_store id)
  /\ (forall doc, doc <> book_document_id (sample_book doc_A "A") ->
        get_book_by_document_id sample_library doc
        = get_book_by_document_id empty_book_store doc)
  /\ all_books sample_library
     = all_books empty_book_store ++ [sample_book doc_A "A"].
Proof.
  apply (X16_create_book_round_trip
           empty_book_store (sample_book doc_A "A")
           sample_library (sample_book doc_A "A")).
  - apply book_store_consistent_empty.
  - reflexivity.
Defined.

(** X17.  Once a book is stored, [create_book] rejects every book with
    the same identifier or the same document identifier, with
    [BookAlreadyExistsError] on the document identifier submitted. *)
Theorem X17_create_book_rejects_duplicates
    (repo : BookStore) (book : Book) (repo' : BookStore) (b book2 : Book) :
  create_book repo book = inr (repo', b) ->
  book_id book2 = book_id book
  \/ book_document_id book2 = book_document_id book ->
  create_book repo' book2
  = inl (BookAlreadyExistsError (book_document_id book2)).
Proof.
  intros (HB & HI & -> & ->)%create_book_inr Hdup. unfold create_book. simpl.
  destruct (decide (is_Some (<[book_id book:=book]> (_books repo)
                             !! book_id book2))) as [|Hn1]; [done|].
  destruct (decide (is_Some (<[book_document_id book:=book_id book]>
                               (_books_by_doc_id repo)
                             !! book_document_id book2))) as [|Hn2]; [done|].
  exfalso. destruct Hdup as [Heq|Heq]; rewrite Heq in *.
  - apply Hn1. rewrite lookup_insert_eq. by eauto.
  - apply Hn2. rewrite lookup_insert_eq. by eauto.
Qed.

Lemma X17_create_book_rejects_duplicates_witness :
  create_book sample_library (sample_book doc_B "A")
  = inl (BookAlreadyExistsError (book_document_id (sample_book doc_B "A"))).
Proof.
  apply (X17_create_book_rejects_duplicates
           empty_book_store (sample_book doc_A "A")
           sample_library (sample_book doc_A "A") (sample_book doc_B "A")).
  - reflexivity.
  - right. reflexivity.
Defined.

(** X18.  The three structures of the repository stay consistent: they
    are consistent when the repository is created, and every successful
    [create_book], [update_book] and [delete_book] keeps them so. *)
Theorem X18_operations_keep_consistency (repo : BookStore) :
  book_store_consistent repo ->
  (forall book repo' b,
      create_book repo book = inr (repo', b) -> book_store_consistent repo')
  /\ (forall book repo' b,
        update_book repo book = inr (repo', b) -> book_store_consistent repo')
  /\ (forall id repo',
        delete_book repo id = inr repo' -> book_store_consistent repo').
Proof.
  intros Hc. split; [|split].
  - intros book repo' b. by apply create_book_consistent.
  - intros book repo' b. by apply update_book_consistent.
  - intros id repo'. by apply delete_book_consistent.
Qed.

Lemma X18_operations_keep_consistency_witness :
  book_store_consistent empty_book_store
  /\ book_store_consistent sample_library.
Proof.
  split; [apply book_store_consistent_empty|].
  apply (proj1 (X18_operations_keep_consistency
                  empty_book_store book_store_consistent_empty)
               (sample_book doc_A "A") sample_library (sample_book doc_A "A")).
  reflexivity.
Defined.

(** X19.  On a consistent repository [update_book] either fails, with
    [BookNotFoundError] when the identifier is not stored or with
    [BookAlreadyExistsError] when another book holds the new document
    identifier, or it succeeds; it never fails on the removal of the old
    document identifier.  After a success the book is found by its
    identifier and its document identifier, no longer by a former document
    identifier, the other books are found as before, and the listing order
    is unchanged. *)
Theorem X19_update_book_outcome (repo : BookStore) (book : Book) :
  book_store_consistent repo ->
  match update_book repo book with
  | inl e =>
      (e = BookNotFoundError (book_id book)
       /\ get_book_by_id repo (book_id book) = None)
      \/ (e = BookAlreadyExistsError (book_document_id book)
          /\ exists other,
               get_book_by_document_id repo (book_document_id book)
               = Some other
               /\ book_id other <> book_id book)
  | inr (repo', b) =>
      b = book
      /\ is_Some (get_book_by_id repo (book_id book))
      /\ get_book_by_id repo' (book_id book) = Some book
      /\ get_book_by_document_id repo' (book_document_id book) = Some book
      /\ (forall id, id <> book_id book ->
            get_book_by_id repo' id = get_book_by_id repo id)
      /\ (forall doc other, doc <> book_document_id book ->
            get_book_by_document_id repo' doc = Some other
            <-> get_book_by_document_id repo doc = Some other
                /\ book_id other <> book_id book)
      /\ _book_order_for_listing repo' = _book_order_for_listing repo
  end.
Proof.
  intros Hc. destruct (update_book repo book) as [e|[repo' b]] eqn:Hup.
  - unfold update_book in Hup.
    destruct (_books repo !! book_id book) as [orig|] eqn:Horig;
      [|left; by simplify_eq].
    destruct (decide (book_document_id orig <> book_document_id book));
      [|done].
    destruct (document_id_taken repo book) eqn:Htaken.
    + right. simplify_eq. split; [done|]. unfold document_id_taken in Htaken.
      destruct (_books_by_doc_id repo !! book_document_id book)
        as [other|] eqn:Hother; [|done].
      apply bool_decide_eq_true in Htaken.
      destruct (consistent_index _ Hc _ _ Hother) as (ob & Hob & Hobd).
      exists ob. split.
      * apply get_book_by_document_id_Some; [done|].
        by rewrite (consistent_id _ Hc _ _ Hob).
      * by rewrite (consistent_id _ Hc _ _ Hob).
    + exfalso. rewrite (consistent_doc _ Hc _ _ Horig) in Hup. done.
  - pose proof (update_book_consistent _ _ _ _ Hc Hup) as Hc'.
    apply update_book_inr in Hup as (orig & Horig & -> & HB & HO & Hcase).
    assert (_books repo' !! book_id book = Some book) as Hnew
      by (rewrite HB; apply lookup_insert_eq).
    split; [done|]. split; [simpl; by eauto|]. split; [done|].
    split; [by apply get_book_by_document_id_Some|].
    split; [|split; [|done]].
    + intros id Hne. simpl. rewrite HB. by apply lookup_insert_ne.
    + intros doc other Hne.
      rewrite !get_book_by_document_id_Some by done. rewrite HB.
      rewrite lookup_insert_Some. split.
      * intros [[[_ <-]|[Hne' Ha]] Hd]; [done|]. split; [done|].
        congruence.
      * intros [[Ha Hd] Hne']. split; [|done]. right. split; [|done].
        congruence.
Qed.

Lemma X19_update_book_outcome_witness :
  match update_book sample_library (sample_book doc_A "A2") with
  | inl e =>
      (e = BookNotFoundError (book_id (sample_book doc_A "A2"))
       /\ get_book_by_id sample_library (book_id (sample_book doc_A "A2"))
          = None)
      \/ (e = BookAlreadyExistsError
                (book_document_id (sample_book doc_A "A2"))
          /\ exists other,
               get_book_by_document_id sample_library
                 (book_document_id (sample_book doc_A "A2"))
               = Some other
               /\ book_id other <> book_id (sample_book doc_A "A2"))
  | inr (repo', b) =>
      b = sample_book doc_A "A2"
      /\ is_Some (get_book_by_id sample_library
                    (book_id (sample_book doc_A "A2")))
      /\ get_book_by_id repo' (book_id (sample_book doc_A "A2"))
         = Some (sample_book doc_A "A2")
      /\ get_book_by_document_id repo'
           (book_document_id (sample_book doc_A "A2"))
         = Some (sample_book doc_A "A2")
      /\ (forall id, id <> book_id (sample_book doc_A "A2") ->
            get_book_by_id repo' id = get_book_by_id sample_library id)
      /\ (forall doc other,
            doc <> book_document_id (sample_book doc_A "A2") ->
            get_book_by_document_id repo' doc = Some other
            <-> get_book_by_document_id sample_library doc = Some other
                /\ book_id other <> book_id (sample_book doc_A "A2"))
      /\ _book_order_for_listing repo'
         = _book_order_for_listing sample_library
  end.
Proof.
  apply (X19_update_book_outcome sample_library (sample_book doc_A "A2")).
  apply (create_book_consistent
           empty_book_store (sample_book doc_A "A")
           sample_library (sample_book doc_A "A")).
  - apply book_store_consistent_empty.
  - reflexivity.
Defined.

(** X20.  On a consistent repository [delete_book] fails, with
    [BookNotFoundError], exactly when the identifier is not stored.
    After a success the book is found neither by its identifier nor by its
    document identifier, the other books are found and listed as before,
    and deleting the same identifier again fails. *)
Theorem X20_delete_book_outcome (repo : BookStore) (id : UUID) :
  book_store_consistent repo ->
  match delete_book repo id with
  | inl e => e = BookNotFoundError id /\ get_book_by_id repo id = None
  | inr repo' =>
      is_Some (get_book_by_id repo id)
      /\ get_book_by_id repo' id = None
      /\ (forall id', id' <> id ->
            get_book_by_id repo' id' = get_book_by_id repo id')
      /\ (forall doc other,
            get_book_by_document_id repo' doc = Some other
            <-> get_book_by_document_id repo doc = Some other
                /\ book_id other <> id)
      /\ all_books repo' = filter (fun b => book_id b <> id) (all_books repo)
      /\ delete_book repo' id = inl (BookNotFoundError id)
  end.
Proof.
  intros Hc. destruct (delete_book repo id) as [e|repo'] eqn:Hdel.
  - unfold delete_book in Hdel.
    destruct (_books repo !! id) eqn:Hid; [done|]. by simplify_eq.
  - pose proof (delete_book_consistent _ _ _ Hc Hdel) as Hc'.
    pose proof (all_books_delete _ _ _ Hc Hdel) as Hall.
    apply delete_book_inr in Hdel as (del & Hdel & Hrepo').
    assert (_books repo' = delete id (_books repo)) as HB
      by (by rewrite Hrepo').
    assert (_books repo' !! id = None) as Hgone
      by (rewrite HB; apply lookup_delete_eq).
    split; [simpl; by eauto|]. split; [done|].
    split; [|split; [|split; [done|]]].
    + intros id' Hne. simpl. rewrite HB. by apply lookup_delete_ne.
    + intros doc other.
      rewrite !get_book_by_document_id_Some by done. rewrite HB.
      rewrite lookup_delete_Some. split.
      * intros [[Hne Ha] Hd]. split; [done|]. congruence.
      * intros [[Ha Hd] Hne]. split; [|done]. split; [|done]. congruence.
    + unfold delete_book. by rewrite Hgone.
Qed.

Lemma X20_delete_book_outcome_witness :
  match delete_book sample_library doc_A with
  | inl e => e = BookNotFoundError doc_A
             /\ get_book_by_id sample_library doc_A = None
  | inr repo' =>
      is_Some (get_book_by_id sample_library doc_A)
      /\ get_book_by_id repo' doc_A = None
      /\ (forall id', id' <> doc_A ->
            get_book_by_id repo' id' = get_book_by_id sample_library id')
      /\ (forall doc other,
            get_book_by_document_id repo' doc = Some other
            <-> get_book_by_document_id sample_library doc = Some other
                /\ book_id other <> doc_A)
      /\ all_books repo'
         = filter (fun b => book_id b <> doc_A) (all_books sample_library)
      /\ delete_book repo' doc_A = inl (BookNotFoundError doc_A)
  end.
Proof.
  apply (X20_delete_book_outcome sample_library doc_A).
  apply (create_book_consistent
           empty_book_store (sample_book doc_A "A")
           sample_library (sample_book doc_A "A")).
  - apply book_store_consistent_empty.
  - reflexivity.
Defined.

(** X21.  On a consistent repository [list_books] returns the page of
    the listing that starts at [offset] (a negative one counting as 0) and
    has [limit] books (20 when [limit] is not positive), fewer at the end
    of the listing, together with the number of stored books; the listing
    holds each stored book once. *)
Theorem X21_list_books_page (repo : BookStore) (offset limit : Z) :
  book_store_consistent repo ->
  list_books repo offset limit
  = (take (Z.to_nat (if limit <=? 0 then 20 else limit))
          (drop (Z.to_nat offset) (all_books repo)),
     size (_books repo))
  /\ (forall b, b ∈ all_books repo <-> get_book_by_id repo (book_id b) = Some b)
  /\ NoDup (all_books repo)
  /\ length (all_books repo) = size (_books repo).
Proof.
  intros Hc. split; [by apply list_books_spec|].
  split; [intros b; by apply elem_of_all_books|].
  pose proof (all_books_ids repo Hc) as Hids. split.
  - apply (NoDup_fmap_1 book_id).
    change (NoDup (map book_id (all_books repo))). rewrite Hids. apply Hc.
  - rewrite <-(length_order_size repo Hc), <-Hids. by rewrite length_map.
Qed.

Lemma X21_list_books_page_witness :
  list_books sample_library (-1) 0
  = (take (Z.to_nat (if 0 <=? 0 then 20 else 0))
          (drop (Z.to_nat (-1)) (all_books sample_library)),
     size (_books sample_library))
  /\ (forall b, b ∈ all_books sample_library
                <-> get_book_by_id sample_library (book_id b) = Some b)
  /\ NoDup (all_books sample_library)
  /\ length (all_books sample_library) = size (_books sample_library).
Proof.
  apply (X21_list_books_page sample_library (-1) 0).
  apply (create_book_consistent
           empty_book_store (sample_book doc_A "A")
           sample_library (sample_book doc_A "A")).
  - apply book_store_consistent_empty.
  - reflexivity.
Defined.

(** X22.  On a consistent repository the pages of [list_all_books] tile
    the listing: page [page] of size [page_size] (page 1 for a page below
    1, size 20 for a size below 1) holds the [page_size] books that follow
    the first [(page - 1) * page_size], and what follows it starts where
    the next page starts. *)
Theorem X22_list_all_books_pages (repo : BookStore) (page page_size : Z) :
  book_store_consistent repo ->
  let page' := if page <? 1 then 1 else page in
  let page_size' := if page_size <? 1 then 20 else page_size in
  let start := Z.to_nat ((page' - 1) * page_size') in
  list_all_books repo page page_size
  = (take (Z.to_nat page_size') (drop start (all_books repo)),
     size (_books repo))
  /\ drop start (all_books repo)
     = fst (list_all_books repo page page_size)
       ++ drop (Z.to_nat (page' * page_size')) (all_books repo)
  /\ (length (fst (list_all_books repo page page_size))
      <= Z.to_nat page_size')%nat.
Proof.
  intros Hc page' page_size' start.
  assert (1 <= page') by (unfold page'; destruct (Z.ltb_spec page 1); lia).
  assert (1 <= page_size')
    by (unfold page_size'; destruct (Z.ltb_spec page_size 1); lia).
  assert (list_all_books repo page page_size
          = (take (Z.to_nat page_size') (drop start (all_books repo)),
             size (_books repo))) as Heq.
  { unfold list_all_books. cbv zeta. fold page' page_size'.
    rewrite list_books_spec by done. fold start.
    destruct (Z.leb_spec page_size' 0); [lia|done]. }
  rewrite Heq. simpl. split; [done|]. split.
  - rewrite <-(take_drop (Z.to_nat page_size') (drop start (all_books repo)))
      at 1.
    f_equal. rewrite drop_drop. f_equal. unfold start. nia.
  - rewrite length_take. lia.
Qed.

Lemma X22_list_all_books_pages_witness :
  list_all_books sample_library 0 0
  = (take (Z.to_nat 20) (drop (Z.to_nat ((1 - 1) * 20))
                              (all_books sample_library)),
     size (_books sample_library))
  /\ drop (Z.to_nat ((1 - 1) * 20)) (all_books sample_library)
     = fst (list_all_books sample_library 0 0)
       ++ drop (Z.to_nat (1 * 20)) (all_books sample_library)
  /\ (length (fst (list_all_books sample_library 0 0)) <= Z.to_nat 20)%nat.
Proof.
  apply (X22_list_all_books_pages sample_library 0 0).
  apply (create_book_consistent
           empty_book_store (sample_book doc_A "A")
           sample_library (sample_book doc_A "A")).
  - apply book_store_consistent_empty.
  - reflexivity.
Defined.

(** X23.  On a consistent repository the lookup by document identifier
    agrees with the stored books: it returns a book exactly when that book
    is stored under its identifier and carries the document identifier,
    and two stored books never share a document identifier. *)
Theorem X23_document_index_agrees (repo : BookStore) :
  book_store_consistent repo ->
  (forall doc b,
      get_book_by_document_id repo doc = Some b
      <-> get_book_by_id repo (book_id b) = Some b
          /\ book_document_id b = doc)
  /\ (forall id1 id2 b1 b2,
        get_book_by_id repo id1 = Some b1 ->
        get_book_by_id repo id2 = Some b2 ->
        book_document_id b1 = book_document_id b2 -> id1 = id2).
Proof.
  intros Hc. split.
  - intros doc b. by apply get_book_by_document_id_Some.
  - simpl. intros id1 id2 b1 b2 H1 H2 Heq.
    apply (consistent_doc _ Hc) in H1, H2. congruence.
Qed.

Lemma X23_document_index_agrees_witness :
  (forall doc b,
      get_book_by_document_id sample_library doc = Some b
      <-> get_book_by_id sample_library (book_id b) = Some b
          /\ book_document_id b = doc)
  /\ (forall id1 id2 b1 b2,
        get_book_by_id sample_library id1 = Some b1 ->
        get_book_by_id sample_library id2 = Some b2 ->
        book_document_id b1 = book_document_id b2 -> id1 = id2).
Proof.
  apply (X23_document_index_agrees sample_library).
  apply (create_book_consistent
           empty_book_store (sample_book doc_A "A")
           sample_library (sample_book doc_A "A")).
  - apply book_store_consistent_empty.
  - reflexivity.
Defined.

(** ** Books started *)

(** X24.  [get_total_books_started] is the number of documents for which
    the user has some stored entry, not necessarily the latest, with a
    positive percentage. *)
Theorem X24_books_started_counts_documents (st : Store) (u : option UUID) :
  exists started : gset UUID,
    get_total_books_started st u = size started
    /\ forall d, d ∈ started
                 <-> exists p, p ∈ st /\ user_id p = u /\ document_id p = d
                               /\ (0 < percentage p)%Q.
Proof.
  assert (forall p, p ∈ get_all_progress_for_user st u
                    <-> user_id p = u /\ p ∈ st) as Hentries.
  { intros p. unfold get_all_progress_for_user.
    by rewrite elem_of_stable_sort, list_elem_of_filter. }
  unfold get_total_books_started.
  destruct (get_all_progress_for_user st u) as [|x F] eqn:HF.
  - exists ∅. split; [done|]. intros d. split; [by intros ?%elem_of_empty|].
    intros (p & Hp & Hu & _). assert (p ∈ @nil Progress) as Hin
      by (by apply Hentries). by apply elem_of_nil in Hin.
  - eexists. split; [reflexivity|]. intros d.
    rewrite elem_of_list_to_set, list_elem_of_fmap. split.
    + intros (p & -> & [Hpos Hin]%list_elem_of_filter).
      apply Hentries in Hin as [Hu Hin]. exists p.
      apply Is_true_true, Qlt_bool_spec in Hpos. done.
    + intros (p & Hp & Hu & <- & Hpos). exists p. split; [done|].
      apply list_elem_of_filter. split; [|by apply Hentries].
      by apply Is_true_true, Qlt_bool_spec.
Qed.
